(** * Release notes generator: commit parsing, tag ordering and grouping

    A shallow embedding of [release_notes_generator.py].

    Python [str] values are modelled as lists of characters.  Rocq's [ascii]
    has 256 values; they stand for the code points U+0000..U+00FF, and the
    character classes below are the ones Python 3 uses on that range
    ([str.isspace], the [re] classes of a [str] pattern, [str.lower]). *)

From Stdlib Require Import List Ascii String Bool Arith ZArith Lia.
From Stdlib Require Import Permutation Sorted DecimalString.
Import ListNotations.

Set Implicit Arguments.

(** ** Python strings *)

Module PyStr.

Definition str := list ascii.

(** A literal of the source. *)
Definition py (s : string) : str := list_ascii_of_string s.

(** The line feed. *)
Definition nl : str := ["010"%char].

Definition code (a : ascii) : nat := nat_of_ascii a.

Definition in_range (lo hi : nat) (a : ascii) : bool :=
  (lo <=? code a) && (code a <=? hi).

(** [str.isspace] on one character, which is also the class [\s] of a
    [str] pattern and the separator set of [str.strip()] and
    [str.split()]: TAB..CR, FS..US, SPACE, NEL, NBSP. *)
Definition is_space (a : ascii) : bool :=
  in_range 9 13 a || in_range 28 32 a || (code a =? 133) || (code a =? 160).

(** The class [\d] of a [str] pattern. *)
Definition is_digit (a : ascii) : bool := in_range 48 57 a.

(** The class [\w] of a [str] pattern: alphanumeric characters and the
    underscore. *)
Definition is_word (a : ascii) : bool :=
  in_range 48 57 a || in_range 65 90 a || (code a =? 95) || in_range 97 122 a
  || (code a =? 170) || in_range 178 179 a || (code a =? 181)
  || in_range 185 186 a || in_range 188 190 a
  || in_range 192 214 a || in_range 216 246 a || in_range 248 255 a.

(** [str.lower] on one character. *)
Definition lower_char (a : ascii) : ascii :=
  if in_range 65 90 a || in_range 192 214 a || in_range 216 222 a
  then ascii_of_nat (code a + 32) else a.

Definition lower (s : str) : str := map lower_char s.

Definition eqb (s t : str) : bool :=
  if list_eq_dec ascii_dec s t then true else false.

(** Truth value of a string: the empty string is false. *)
Definition truthy (s : str) : bool :=
  match s with [] => false | _ => true end.

(** [s.lstrip(chars)], [s.rstrip(chars)], [s.strip(chars)] with the set of
    characters given as a predicate. *)
Fixpoint lstrip_with (p : ascii -> bool) (s : str) : str :=
  match s with
  | a :: s' => if p a then lstrip_with p s' else s
  | [] => []
  end.

Definition rstrip_with (p : ascii -> bool) (s : str) : str :=
  rev (lstrip_with p (rev s)).

Definition strip_with (p : ascii -> bool) (s : str) : str :=
  rstrip_with p (lstrip_with p s).

(** [s.strip()] *)
Definition strip (s : str) : str := strip_with is_space s.

(** [s.split(sep)] for a one-character separator: never empty, one more
    field than there are separators. *)
Fixpoint split_char (sep : ascii) (s : str) : list str :=
  match s with
  | [] => [[]]
  | a :: s' =>
      if Ascii.eqb a sep then [] :: split_char sep s'
      else match split_char sep s' with
           | f :: fs => (a :: f) :: fs
           | [] => [[a]]
           end
  end.

(** [s.split(sep, maxsplit)] for a one-character separator: at most
    [maxsplit] cuts, the last field keeps the remaining separators. *)
Fixpoint split_char_max (sep : ascii) (maxsplit : nat) (s : str) : list str :=
  match maxsplit with
  | O => [s]
  | S n =>
      (fix scan (s : str) : list str :=
         match s with
         | [] => [[]]
         | a :: s' =>
             if Ascii.eqb a sep then [] :: split_char_max sep n s'
             else match scan s' with
                  | f :: fs => (a :: f) :: fs
                  | [] => [[a]]
                  end
         end) s
  end.

(** [s.split()]: fields separated by runs of whitespace, no empty field. *)
Fixpoint split_ws_aux (cur : str) (s : str) : list str :=
  match s with
  | [] => match cur with [] => [] | _ => [rev cur] end
  | a :: s' =>
      if is_space a
      then match cur with
           | [] => split_ws_aux [] s'
           | _ => rev cur :: split_ws_aux [] s'
           end
      else split_ws_aux (a :: cur) s'
  end.

Definition split_ws (s : str) : list str := split_ws_aux [] s.

(** [sep in s] for a one-character [sep]. *)
Definition contains_char (sep : ascii) (s : str) : bool :=
  existsb (Ascii.eqb sep) s.

(** [s[:n]] *)
Definition slice_to (n : nat) (s : str) : str := firstn n s.

End PyStr.
Import PyStr.

(** ** The regular expressions of [re], as far as the source uses them *)

Module Re.

(** Pattern syntax.  The source repeats single-character classes only. *)
Inductive regex : Type :=
| Cls (p : ascii -> bool)      (* one character of a class *)
| Seq (r1 r2 : regex)          (* r1 r2 *)
| Alt (r1 r2 : regex)          (* r1|r2, the left one first *)
| Opt (r : regex)              (* r?  (greedy) *)
| Star (p : ascii -> bool)     (* [class]*  (greedy) *)
| Plus (p : ascii -> bool)     (* [class]+  (greedy) *)
| NonCap (r : regex)           (* (?:r) *)
| Group (n : nat) (r : regex). (* (r), capture group number n *)

(** Captured groups: group number to captured text; a group that did not
    take part in the match has no entry ([None] in Python). *)
Definition captures := list (nat * str).

Fixpoint group (c : captures) (n : nat) : option str :=
  match c with
  | [] => None
  | (m, s) :: c' => if Nat.eqb m n then Some s else group c' n
  end.

Definition set_group (n : nat) (s : str) (c : captures) : captures :=
  (n, s) :: c.

Definition lit (a : ascii) : regex := Cls (Ascii.eqb a).

Section Matcher.
Variable R : Type.

(** Greedy repetition of a class with backtracking: take as many
    characters as possible, give them back one at a time while the rest
    of the pattern fails. *)
Fixpoint star_greedy (p : ascii -> bool) (s : str) (c : captures)
         (k : str -> captures -> option R) : option R :=
  match s with
  | a :: s' =>
      if p a
      then match star_greedy p s' c k with
           | Some x => Some x
           | None => k s c
           end
      else k s c
  | [] => k [] c
  end.

(** Backtracking matcher in continuation-passing style: [k] is the rest
    of the pattern, applied to the unread input and the groups so far. *)
Fixpoint run (r : regex) (s : str) (c : captures)
         (k : str -> captures -> option R) : option R :=
  match r with
  | Cls p =>
      match s with
      | a :: s' => if p a then k s' c else None
      | [] => None
      end
  | Seq r1 r2 => run r1 s c (fun s' c' => run r2 s' c' k)
  | Alt r1 r2 =>
      match run r1 s c k with
      | Some x => Some x
      | None => run r2 s c k
      end
  | Opt r1 =>
      match run r1 s c k with
      | Some x => Some x
      | None => k s c
      end
  | Star p => star_greedy p s c k
  | Plus p =>
      match s with
      | a :: s' => if p a then star_greedy p s' c k else None
      | [] => None
      end
  | NonCap r1 => run r1 s c k
  | Group n r1 =>
      run r1 s c
          (fun s' c' =>
             k s' (set_group n (firstn (List.length s - List.length s') s) c'))
  end.
End Matcher.

(** A match object: the groups and the input left after the match (the
    text from [match.end()] on). *)
Record match_obj : Type := mkMatch { groups : captures; unread : str }.

(** [re.match(pattern, s)]: match at the start of [s]. *)
Definition re_match (r : regex) (s : str) : option match_obj :=
  run r s [] (fun s' c => Some (mkMatch c s')).

(** The language of a pattern: the texts it can consume. *)
Inductive lang : regex -> str -> Prop :=
| L_Cls p a : p a = true -> lang (Cls p) [a]
| L_Seq r1 r2 s1 s2 : lang r1 s1 -> lang r2 s2 -> lang (Seq r1 r2) (s1 ++ s2)
| L_Alt_l r1 r2 s : lang r1 s -> lang (Alt r1 r2) s
| L_Alt_r r1 r2 s : lang r2 s -> lang (Alt r1 r2) s
| L_Opt_some r s : lang r s -> lang (Opt r) s
| L_Opt_none r : lang (Opt r) []
| L_Star p s : forallb p s = true -> lang (Star p) s
| L_Plus p a s : p a = true -> forallb p s = true -> lang (Plus p) (a :: s)
| L_NonCap r s : lang r s -> lang (NonCap r) s
| L_Group n r s : lang r s -> lang (Group n r) s.

End Re.
Import Re.

(** ** class GitCommit *)

Module Commit.

Definition not_rparen (a : ascii) : bool := negb (Ascii.eqb a ")"%char).

(** [.] without DOTALL: anything but a line feed. *)
Definition dot (a : ascii) : bool := negb (Ascii.eqb a "010"%char).

(** The pattern of [parse_commit_message]: at the start of the text,
    group 1 is one or more [\w]; then optionally, without capture, an
    opening parenthesis, group 2 of one or more characters other than a
    closing parenthesis, and a closing parenthesis; then a colon, any
    number of [\s], and group 3 of any number of [.].  The anchor is
    implied by [re.match]. *)
Definition pattern : regex :=
  Seq (Group 1 (Plus is_word))
 (Seq (Opt (NonCap (Seq (lit "("%char)
                   (Seq (Group 2 (Plus not_rparen)) (lit ")"%char)))))
 (Seq (lit ":"%char)
 (Seq (Star is_space)
      (Group 3 (Star dot))))).

(** A group that took part in a match, as [match.group(n)] returns it. *)
Definition group_or_empty (m : match_obj) (n : nat) : str :=
  match group (groups m) n with Some s => s | None => [] end.

(** [GitCommit.parse_commit_message] *)
Definition parse_commit_message (message : str) : str * str * str :=
  match re_match pattern message with
  | Some m =>
      let commit_type := lower (group_or_empty m 1) in
      let scope :=
        match group (groups m) 2 with
        | Some g => if truthy g then g else []
        | None => []
        end in
      let description := group_or_empty m 3 in
      (commit_type, scope, description)
  | None => (py "other", [], message)
  end.

Record GitCommit : Type := mkCommit {
  hash : str;
  subject : str;
  author : str;
  date : str;
  type : str;
  scope : str;
  description : str
}.

(** [GitCommit.__init__] *)
Definition new (h subj auth d : str) : GitCommit :=
  let '(t, sc, descr) := parse_commit_message subj in
  mkCommit h subj auth d t sc descr.

End Commit.
Import Commit.

(** ** datetime *)

Module Datetime.

(** A [datetime] value.  Every value the program builds comes from the
    format [%Y-%m-%d] or is [datetime.min], so the time of day is always
    midnight and is left out. *)
Record datetime : Type := mkDate { year : nat; month : nat; day : nat }.

(** [datetime.min] *)
Definition min : datetime := mkDate 1 1 1.

(** [a < b] on datetimes. *)
Definition ltb (a b : datetime) : bool :=
  (year a <? year b)
  || ((year a =? year b)
      && ((month a <? month b)
          || ((month a =? month b) && (day a <? day b)))).

Definition is_leap (y : nat) : bool :=
  (y mod 4 =? 0) && (negb (y mod 100 =? 0) || (y mod 400 =? 0)).

Definition days_in_month (y m : nat) : nat :=
  match m with
  | 2 => if is_leap y then 29 else 28
  | 4 | 6 | 9 | 11 => 30
  | _ => 31
  end.

(** [int(s)] on a text of decimal digits. *)
Definition int_of_digits (s : str) : nat :=
  fold_left (fun acc a => 10 * acc + (code a - 48)) s 0.

Definition digit_range (lo hi : ascii) : regex :=
  Cls (in_range (code lo) (code hi)).

(** The regular expression [_strptime] builds for the format [%Y-%m-%d]:
    four digits; a month 1[0-2], 0[1-9] or [1-9]; a day 3[0-1], [1-2]\d,
    0[1-9], [1-9] or a space and [1-9].  Groups Y, m, d are 1, 2, 3. *)
Definition format_regex : regex :=
  Seq (Group 1 (Seq (Cls is_digit) (Seq (Cls is_digit)
               (Seq (Cls is_digit) (Cls is_digit)))))
 (Seq (lit "-"%char)
 (Seq (Group 2 (Alt (Seq (lit "1"%char) (digit_range "0" "2"))
               (Alt (Seq (lit "0"%char) (digit_range "1" "9"))
                    (digit_range "1" "9"))))
 (Seq (lit "-"%char)
      (Group 3 (Alt (Seq (lit "3"%char) (digit_range "0" "1"))
               (Alt (Seq (digit_range "1" "2") (Cls is_digit))
               (Alt (Seq (lit "0"%char) (digit_range "1" "9"))
               (Alt (digit_range "1" "9")
                    (Seq (lit " "%char) (digit_range "1" "9")))))))))).

(** [datetime.strptime(s, "%Y-%m-%d")]; [None] stands for [ValueError]:
    no match, unconverted data left, or a date that does not exist. *)
Definition strptime (s : str) : option datetime :=
  match re_match format_regex s with
  | None => None
  | Some m =>
      match unread m with
      | _ :: _ => None
      | [] =>
          match group (groups m) 1, group (groups m) 2, group (groups m) 3 with
          | Some y, Some mo, Some d =>
              let y := int_of_digits y in
              let mo := int_of_digits mo in
              let d := int_of_digits (lstrip_with (Ascii.eqb " ") d) in
              if (1 <=? y) && (d <=? days_in_month y mo)
              then Some (mkDate y mo d) else None
          | _, _, _ => None
          end
      end
  end.

End Datetime.

(** ** Exceptions and results *)

Inductive exn : Type :=
| CalledProcessError (returncode : Z) (stderr : str)
| Exception_ (msg : str)     (* raise Exception(msg) *)
| IndexError
| ValueError
| KeyError
| TypeError
| OSError (msg : str).       (* any other failure of starting a process or
                                of writing a file *)

Inductive res (A : Type) : Type :=
| Ok (a : A)
| Raise (e : exn).
Arguments Ok {A} a.
Arguments Raise {A} e.

(** ** The host: the git executable, the renderer and the file system *)

Class Host : Type := {
  World : Type;
  (** [subprocess.run(["git"] + command, cwd=repo_path, capture_output=True,
      text=True, check=True)]: the captured standard output, or the exception
      raised ([CalledProcessError] for a non-zero exit status). *)
  subprocess_run : str -> list str -> World -> res str * World;
  (** [generate_markdown(start_tag, end_tag, commits, version_title)], the
      renderer, which reads the clock.  It is kept abstract: no statement
      below depends on the text it produces. *)
  generate_markdown :
    option str -> option str -> list GitCommit -> option str ->
    World -> res str * World;
  (** [with open(path, 'w', encoding='utf-8') as f: f.write(content)] *)
  write_file : str -> str -> World -> res unit * World
}.

(** What the program did to the outside, oldest first. *)
Inductive event : Type :=
| GitCall (command : list str)
| FileWrite (path content : str).

(** ** A state and exception monad *)

Section Monad.
Context {H : Host}.

Record state : Type := mkState { world : World; trace : list event }.

Definition M (A : Type) : Type := state -> res A * state.

Definition ret {A} (a : A) : M A := fun s => (Ok a, s).

Definition raise {A} (e : exn) : M A := fun s => (Raise e, s).

Definition bind {A B} (m : M A) (f : A -> M B) : M B :=
  fun s => match m s with
           | (Ok a, s') => f a s'
           | (Raise e, s') => (Raise e, s')
           end.

(** [try: m  except <class>: h]; [catches e] tells whether the except
    clause applies to [e]. *)
Definition try_except {A} (m : M A) (catches : exn -> bool) (h : exn -> M A)
  : M A :=
  fun s => match m s with
           | (Ok a, s') => (Ok a, s')
           | (Raise e, s') => if catches e then h e s' else (Raise e, s')
           end.

Definition log (e : event) : M unit :=
  fun s => (Ok tt, mkState (world s) (trace s ++ [e])).

Definition lift {A} (f : World -> res A * World) : M A :=
  fun s => let '(r, w) := f (world s) in (r, mkState w (trace s)).
End Monad.

Notation "x <- m ;; f" := (bind m (fun x => f))
  (at level 61, m at next level, right associativity).
Notation "m ;;; f" := (bind m (fun _ => f))
  (at level 61, right associativity).

(** The exception classes of the except clauses.  Every modelled exception
    derives from [Exception], so [except Exception] and a bare [except]
    catch them all. *)
Definition any_exception (e : exn) : bool := true.

Definition is_CalledProcessError (e : exn) : bool :=
  match e with CalledProcessError _ _ => true | _ => false end.

(** ** Dictionaries, in insertion order *)

Module Dict.

Definition dict (V : Type) : Type := list (str * V).

Section Ops.
Variable V : Type.

(** [k in d] *)
Definition mem (k : str) (d : dict V) : bool :=
  existsb (fun kv => PyStr.eqb (fst kv) k) d.

(** [d[k]]; [None] stands for [KeyError]. *)
Fixpoint get (k : str) (d : dict V) : option V :=
  match d with
  | [] => None
  | (k', v) :: d' => if PyStr.eqb k' k then Some v else get k d'
  end.

(** [d[k] = v]: a present key keeps its place, a new key goes last. *)
Fixpoint set (k : str) (v : V) (d : dict V) : dict V :=
  match d with
  | [] => [(k, v)]
  | (k', v') :: d' =>
      if PyStr.eqb k' k then (k, v) :: d' else (k', v') :: set k v d'
  end.

Definition keys (d : dict V) : list str := map fst d.
End Ops.

(** [d[k].append(x)] on a dictionary of lists: the list bound to [k] is
    changed in place; [None] stands for [KeyError]. *)
Fixpoint append_at (X : Type) (k : str) (x : X) (d : dict (list X))
  : option (dict (list X)) :=
  match d with
  | [] => None
  | (k', v) :: d' =>
      if PyStr.eqb k' k then Some ((k', v ++ [x]) :: d')
      else match append_at k x d' with
           | Some d'' => Some ((k', v) :: d'')
           | None => None
           end
  end.

End Dict.

(** ** class ReleaseNotesGenerator: the parts that do not touch the host *)

Module Notes.

(** [COMMIT_TYPES] *)
Definition COMMIT_TYPES : Dict.dict str :=
  [ (py "feat", py "Features");
    (py "feature", py "Features");
    (py "fix", py "Bug Fixes");
    (py "bugfix", py "Bug Fixes");
    (py "perf", py "Performance Improvements");
    (py "performance", py "Performance Improvements");
    (py "refactor", py "Code Refactoring");
    (py "style", py "Styling");
    (py "chore", py "Chores");
    (py "docs", py "Documentation");
    (py "doc", py "Documentation");
    (py "test", py "Tests");
    (py "testing", py "Tests");
    (py "build", py "Build System");
    (py "ci", py "Continuous Integration");
    (py "revert", py "Reverts");
    (py "other", py "Other Changes") ].

(** The first loop of [categorize_commits]: every key bound to []. *)
Definition empty_categories : Dict.dict (list GitCommit) :=
  fold_left (fun d k => Dict.set k [] d) (Dict.keys COMMIT_TYPES) [].

(** The body of the second loop, for one commit. *)
Definition add_commit (categorized : Dict.dict (list GitCommit))
           (commit : GitCommit) : option (Dict.dict (list GitCommit)) :=
  let commit_type := type commit in
  if Dict.mem commit_type categorized
  then Dict.append_at commit_type commit categorized
  else Dict.append_at (py "other") commit categorized.

Fixpoint add_commits (categorized : Dict.dict (list GitCommit))
         (commits : list GitCommit) : option (Dict.dict (list GitCommit)) :=
  match commits with
  | [] => Some categorized
  | commit :: rest =>
      match add_commit categorized commit with
      | Some d => add_commits d rest
      | None => None
      end
  end.

Definition nonempty (X : Type) (l : list X) : bool :=
  match l with [] => false | _ => true end.

(** [categorize_commits]; [Raise KeyError] if a subscript fails. *)
Definition categorize_commits (commits : list GitCommit)
  : res (Dict.dict (list GitCommit)) :=
  match add_commits empty_categories commits with
  | Some categorized => Ok (filter (fun kv => nonempty (snd kv)) categorized)
  | None => Raise KeyError
  end.

(** *** Tag lines *)

Definition is_quote (a : ascii) : bool := Ascii.eqb a "'"%char.

(** The body of the loop over the lines of the tag listing: [Ok None] when
    the line is skipped, [Ok (Some (tag, date))] when a pair is appended. *)
Definition tag_of_line (line : str) : res (option (str * Datetime.datetime)) :=
  if contains_char "|" line then
    match split_char_max "|" 1 (strip_with is_quote line) with
    | [tag; date_str] =>
        match split_ws date_str with
        | [] => Raise IndexError                  (* date_str.split()[0] *)
        | d :: _ =>
            match Datetime.strptime d with
            | Some date_obj => Ok (Some (tag, date_obj))
            | None => Ok (Some (tag, Datetime.min)) (* except ValueError *)
            end
        end
    | _ => Raise ValueError                       (* unpacking *)
    end
  else Ok None.

Fixpoint tags_of_lines (lines : list str)
         (tags_with_date : list (str * Datetime.datetime))
  : res (list (str * Datetime.datetime)) :=
  match lines with
  | [] => Ok tags_with_date
  | line :: rest =>
      match tag_of_line line with
      | Raise e => Raise e
      | Ok None => tags_of_lines rest tags_with_date
      | Ok (Some td) => tags_of_lines rest (tags_with_date ++ [td])
      end
  end.

(** [insert_desc x l] puts [x] in front of the first element whose date is
    not later than the date of [x]. *)
Fixpoint insert_desc (x : str * Datetime.datetime)
         (l : list (str * Datetime.datetime)) : list (str * Datetime.datetime) :=
  match l with
  | [] => [x]
  | y :: l' =>
      if Datetime.ltb (snd x) (snd y) then y :: insert_desc x l'
      else x :: y :: l'
  end.

(** [l.sort(key=lambda x: x[1], reverse=True)]: a stable sort, the latest
    date first, pairs of equal date in their original order. *)
Definition sort_desc (l : list (str * Datetime.datetime))
  : list (str * Datetime.datetime) :=
  fold_right insert_desc [] l.

(** The date branch of [get_latest_tags], from the text of the listing. *)
Definition tags_by_date (raw_tags : str) : res (list str) :=
  match tags_of_lines (split_char "010" raw_tags) [] with
  | Ok tags_with_date => Ok (map fst (sort_desc tags_with_date))
  | Raise e => Raise e
  end.

(** *** Log lines *)

(** The body of the loop of [get_commits_between_tags]: the commits one
    line adds. *)
Definition commits_of_line (line : str) : list GitCommit :=
  if truthy (strip line) then
    let parts := split_char_max "|" 3 line in
    if 4 <=? List.length parts then
      match parts with
      | [commit_hash; author; date; subject] =>
          [Commit.new (slice_to 8 commit_hash) subject author date]
      | _ => []
      end
    else []
  else [].

Definition commits_of_log (raw_commits : str) : list GitCommit :=
  flat_map commits_of_line (split_char "010" raw_commits).

(** *** Tag selection *)

(** Truth value of an optional string: [None] and [""] are false. *)
Definition truthy_opt (o : option str) : bool :=
  match o with Some s => truthy s | None => false end.

Definition opt_eqb (a b : option str) : bool :=
  match a, b with
  | Some x, Some y => PyStr.eqb x y
  | None, None => true
  | _, _ => false
  end.

(** [for tag in tags: if tag != end_tag: start_tag = tag; break] *)
Fixpoint first_other (tags : list str) (end_tag : option str) : option str :=
  match tags with
  | [] => None
  | tag :: rest =>
      if negb (opt_eqb (Some tag) end_tag) then Some tag
      else first_other rest end_tag
  end.

(** The default selection of [generate_release_notes], for a list of tags
    that is not empty: the resolved (start_tag, end_tag). *)
Definition select_tags (all_tags : list str) (start_tag end_tag : option str)
  : res (option str * option str) :=
  match (if negb (truthy_opt end_tag)
         then match all_tags with
              | t :: _ => Ok (Some t)              (* all_tags[0] *)
              | [] => Raise IndexError
              end
         else Ok end_tag) with
  | Raise e => Raise e
  | Ok end_tag =>
      let start_tag :=
        if negb (truthy_opt start_tag)
        then match first_other (tl all_tags) end_tag with
             | Some tag => Some tag
             | None => start_tag
             end
        else start_tag in
      Ok (start_tag, end_tag)
  end.

(** [f"{x}"] for a value that is a string or [None]. *)
Definition format_opt (o : option str) : str :=
  match o with Some s => s | None => py "None" end.

End Notes.
Import Notes.

(** ** class ReleaseNotesGenerator: the methods that run git *)

Record ReleaseNotesGenerator : Type := mkGenerator { repo_path : str }.

(** The command lines of the queries that take no tag. *)
Definition rev_parse_cmd : list str := [py "rev-parse"; py "--git-dir"].

Definition for_each_ref_cmd : list str :=
  [py "for-each-ref"; py "--format='%(refname:short)|%(creatordate:iso)'";
   py "refs/tags"].

Definition tag_l_cmd : list str := [py "tag"; py "-l"].

(** The command line of the commit-range query. *)
Definition log_args (start_tag end_tag : option str) : list str :=
  [py "log"; py "--oneline"; py "--pretty=format:%H|%an|%ad|%s";
   format_opt start_tag ++ py ".." ++ format_opt end_tag].

(** The two ancestry queries. *)
Definition merge_base_cmd (start_tag end_tag : option str) : list (option str) :=
  [Some (py "merge-base"); start_tag; end_tag].

Definition is_ancestor_cmd (start_tag end_tag : option str)
  : list (option str) :=
  [Some (py "merge-base"); Some (py "--is-ancestor"); start_tag; end_tag].

Section Generator.
Context {H : Host}.
Variable self : ReleaseNotesGenerator.

(** Arguments of a command line; [None] among them makes
    [subprocess.run] raise [TypeError] before any process starts. *)
Fixpoint command_line (command : list (option str)) : option (list str) :=
  match command with
  | [] => Some []
  | Some a :: rest =>
      match command_line rest with
      | Some args => Some (a :: args)
      | None => None
      end
  | None :: _ => None
  end.

(** [run_git_command(command, allow_failure)].  The two messages printed
    before the exception is raised again are left out. *)
Definition run_git_command (command : list (option str))
           (allow_failure : bool) : M (option str) :=
  try_except
    (match command_line command with
     | None => raise TypeError
     | Some args =>
         log (GitCall args) ;;;
         stdout <- lift (subprocess_run (repo_path self) args) ;;
         ret (Some (strip stdout))
     end)
    is_CalledProcessError
    (fun e => if allow_failure then ret None else raise e).

(** [is_git_repo()] *)
Definition is_git_repo : M bool :=
  r <- run_git_command (map Some rev_parse_cmd) true ;;
  ret (match r with Some _ => true | None => false end).

Definition not_a_repository : exn :=
  Exception_ (py "'" ++ repo_path self ++ py "' is not a Git repository").

(** [get_latest_tags()] *)
Definition get_latest_tags : M (list str) :=
  ok <- is_git_repo ;;
  if negb ok then raise not_a_repository else
  by_date <-
    try_except
      (raw_tags <- run_git_command (map Some for_each_ref_cmd) false ;;
       match raw_tags with
       | Some raw_tags =>
           if truthy raw_tags then
             match tags_by_date raw_tags with
             | Ok tags => ret (Some tags)
             | Raise e => raise e
             end
           else ret None
       | None => ret None
       end)
      any_exception
      (fun _ => ret None) ;;
  match by_date with
  | Some tags => ret tags
  | None =>
      try_except
        (raw_tags <- run_git_command (map Some tag_l_cmd) false ;;
         ret (match raw_tags with
              | Some raw_tags =>
                  if truthy raw_tags then split_char "010" raw_tags else []
              | None => []
              end))
        any_exception
        (fun _ => ret [])
  end.

(** [get_commits_between_tags(start_tag, end_tag)] *)
Definition get_commits_between_tags (start_tag end_tag : option str)
  : M (list GitCommit) :=
  raw_commits <-
    run_git_command (map Some (log_args start_tag end_tag)) false ;;
  ret (match raw_commits with
       | Some raw_commits =>
           if truthy raw_commits then commits_of_log raw_commits else []
       | None => []
       end).

(** The ancestry correction of [generate_release_notes]: the pair
    (start_tag, end_tag) after the two nested try statements. *)
Definition order_tags (start_tag end_tag : option str)
  : M (option str * option str) :=
  try_except
    (result <- run_git_command (merge_base_cmd start_tag end_tag) true ;;
     if truthy_opt result then
       try_except
         (run_git_command (is_ancestor_cmd start_tag end_tag) false ;;;
          ret (start_tag, end_tag))
         is_CalledProcessError
         (fun _ => ret (end_tag, start_tag))
     else ret (start_tag, end_tag))
    any_exception
    (fun _ => ret (start_tag, end_tag)).

Definition no_tags : exn :=
  Exception_ (py "No tags found in the repository").

Definition too_few_tags : exn :=
  Exception_ (py "Need at least 2 tags to generate release notes between them").

(** [generate_release_notes(start_tag, end_tag, output_file,
    version_title)].  The progress messages printed on the way are left
    out. *)
Definition generate_release_notes (start_tag end_tag : option str)
           (output_file : str) (version_title : option str) : M str :=
  ok <- is_git_repo ;;
  if negb ok then raise not_a_repository else
  all_tags <- get_latest_tags ;;
  if negb (nonempty all_tags) then raise no_tags else
  if List.length all_tags <? 2 then raise too_few_tags else
  match select_tags all_tags start_tag end_tag with
  | Raise e => raise e
  | Ok (start_tag, end_tag) =>
      p <- order_tags start_tag end_tag ;;
      let '(start_tag, end_tag) := p in
      commits <- get_commits_between_tags start_tag end_tag ;;
      markdown_content <-
        lift (generate_markdown start_tag end_tag commits version_title) ;;
      log (FileWrite output_file markdown_content) ;;;
      lift (write_file output_file markdown_content) ;;;
      ret markdown_content
  end.

End Generator.

(** The state a call starts from: nothing done yet. *)
Definition initial {H : Host} (w : World) : state := mkState w [].

(** A commit-range query: a run of [git log]. *)
Definition is_log_call (e : event) : bool :=
  match e with
  | GitCall (cmd :: _) => PyStr.eqb cmd (py "log")
  | _ => false
  end.

Definition is_file_write (e : event) : bool :=
  match e with FileWrite _ _ => true | _ => false end.

(** * Notions used in the statements *)

(** ** Subject lines *)

(** The text of a scope as it stands in a subject line: nothing, or the
    scope between parentheses. *)
Definition scope_text (sc : option str) : str :=
  match sc with
  | Some s => "("%char :: s ++ [")"%char]
  | None => []
  end.

Definition scope_value (sc : option str) : str :=
  match sc with Some s => s | None => [] end.

(** A scope, when there is one, is not empty and holds no closing
    parenthesis. *)
Definition scope_ok (sc : option str) : Prop :=
  match sc with
  | Some s => s <> [] /\ forallb not_rparen s = true
  | None => True
  end.

(** A line that matches the pattern of the parser: it begins with a word
    token, an optional scope between parentheses, and a colon. *)
Definition conventional (message : str) : Prop :=
  exists ty sc tail,
    message = ty ++ scope_text sc ++ ":"%char :: tail /\
    ty <> [] /\ forallb is_word ty = true /\ scope_ok sc.

(** The conventional form in words: a word token, an optional scope
    between parentheses, a colon, whitespace and the rest of the line.
    Unlike the pattern of the parser it asks for whitespace after the
    colon, one character at least. *)
Definition conventional_spaced (message : str) : Prop :=
  exists ty sc ws rest,
    message = ty ++ scope_text sc ++ ":"%char :: ws ++ rest /\
    ty <> [] /\ forallb is_word ty = true /\ scope_ok sc /\
    ws <> [] /\ forallb is_space ws = true.

(** The text does not begin with a character of the class. *)
Definition stops (p : ascii -> bool) (t : str) : Prop :=
  match t with
  | a :: _ => p a = false
  | [] => True
  end.

(** [t] is what is left of [w] after dropping some of its first
    characters. *)
Definition suffix_of (w2 w : str) : Prop := exists w1, w = w1 ++ w2.

(** ** Grouping *)

(** The key a commit is filed under: its type when the table has it,
    "other" when it does not. *)
Definition category_key (c : GitCommit) : str :=
  if Dict.mem (type c) COMMIT_TYPES then type c else py "other".

(** The commits of a list that are filed under [k], in their order. *)
Definition filed_under (k : str) (commits : list GitCommit) : list GitCommit :=
  filter (fun c => PyStr.eqb (category_key c) k) commits.

(** The dictionary before the empty lists are removed. *)
Definition all_categories (commits : list GitCommit)
  : Dict.dict (list GitCommit) :=
  map (fun k => (k, filed_under k commits)) (Dict.keys COMMIT_TYPES).

(** ** Log lines *)

(** A line of the commit log with its four fields. *)
Definition log_line (h a d subj : str) : str :=
  h ++ "|"%char :: a ++ "|"%char :: d ++ "|"%char :: subj.

(** ** Ordering by date *)

(** [b] is not later than [a]. *)
Definition not_before (a b : str * Datetime.datetime) : Prop :=
  Datetime.ltb (snd a) (snd b) = false.

Definition same_date (d : Datetime.datetime) (x : str * Datetime.datetime)
  : bool :=
  negb (Datetime.ltb (snd x) d) && negb (Datetime.ltb d (snd x)).

(** ** The trace *)

(** The events a computation adds to the trace. *)
Definition extends {H : Host} (s s' : state) (added : list event) : Prop :=
  trace s' = trace s ++ added.

(** A computation is quiet when, from every state, what it adds to the
    trace holds no commit-range query and no file write. *)
Definition quiet_event (e : event) : bool :=
  negb (is_log_call e) && negb (is_file_write e).

Definition quiet_step {H : Host} (s s' : state) : Prop :=
  exists added, extends s s' added /\ forallb quiet_event added = true.

Definition Quiet {H : Host} {A : Type} (m : M A) : Prop :=
  forall s r s', m s = (r, s') -> quiet_step s s'.

(** * A host for the examples *)

(** Git answers from a table that maps a command line to its outcome; a
    command line that is not in the table exits with status 1.  The
    renderer returns a fixed text and writing a file succeeds. *)
Fixpoint answer (table : list (list str * res str)) (args : list str)
  : res str :=
  match table with
  | [] => Raise (CalledProcessError 1 [])
  | (cmd, r) :: rest =>
      if list_eq_dec (list_eq_dec ascii_dec) cmd args then r
      else answer rest args
  end.

Definition scripted (table : list (list str * res str)) : Host :=
  {| World := unit;
     subprocess_run := fun _ args w => (answer table args, w);
     generate_markdown := fun _ _ _ _ w => (Ok (py "# Release"), w);
     write_file := fun _ _ w => (Ok tt, w) |}.

Definition here : ReleaseNotesGenerator := mkGenerator (py ".").

(** The state of a scripted host before anything ran. *)
Definition fresh (table : list (list str * res str))
  : @state (scripted table) :=
  @initial (scripted table) tt.

(** A repository where v2 and v1 have a common ancestor and v2 is not an
    ancestor of v1. *)
Definition ancestry_table : list (list str * res str) :=
  [ ([py "merge-base"; py "v2"; py "v1"], Ok (py "abc123"));
    ([py "merge-base"; py "--is-ancestor"; py "v2"; py "v1"],
     Raise (CalledProcessError 1 [])) ].

(** A repository where v1 is an ancestor of v2. *)
Definition ancestor_table : list (list str * res str) :=
  [ ([py "merge-base"; py "v1"; py "v2"], Ok (py "abc123"));
    ([py "merge-base"; py "--is-ancestor"; py "v1"; py "v2"], Ok []) ].

(** A repository where v2 and v1 have no common ancestor: the query
    prints nothing and exits with status 1. *)
Definition unrelated_table : list (list str * res str) :=
  [ ([py "merge-base"; py "v2"; py "v1"], Raise (CalledProcessError 1 []));
    ([py "merge-base"; py "--is-ancestor"; py "v2"; py "v1"], Ok []) ].

(** A repository where v1 and v2 have a common ancestor and the
    is-ancestor command fails: git ends with a fatal error and exit status
    128. *)
Definition failed_check_table : list (list str * res str) :=
  [ ([py "merge-base"; py "v1"; py "v2"], Ok (py "abc123"));
    ([py "merge-base"; py "--is-ancestor"; py "v1"; py "v2"],
     Raise (CalledProcessError 128 (py "fatal: unable to read tree"))) ].

(** A repository with a single tag. *)
Definition one_tag_table : list (list str * res str) :=
  [ (rev_parse_cmd, Ok (py ".git"));
    (for_each_ref_cmd, Ok (py "'v1.0.0|2023-01-01 10:00:00 +0000'")) ].

(** A log with a blank line, a line of three fields and a line whose
    subject holds a pipe. *)
Definition log_table : list (list str * res str) :=
  [ (log_args (Some (py "v1")) (Some (py "v2")),
     Ok (py "0123456789abcdef|Ann|Mon Jan 2|feat(x): a|b" ++ nl
         ++ py "   " ++ nl
         ++ py "deadbeef|Bob|no subject")) ].

(** A repository with a dated tag and a tag without a creation date (git
    prints none for a tag that points at a tree or a blob); the plain
    listing is in the order of the names. *)
Definition dateless_tag_listing : str :=
  py "'v1.0.0|2023-03-01 10:00:00 +0000'" ++ nl ++ py "'blobtag|'" ++ nl.

Definition dateless_tag_table : list (list str * res str) :=
  [ (rev_parse_cmd, Ok (py ".git"));
    (for_each_ref_cmd, Ok dateless_tag_listing);
    (tag_l_cmd, Ok (py "blobtag" ++ nl ++ py "v1.0.0" ++ nl)) ].

(** The three tags of the ordering example. *)
Definition three_tags_listing : str :=
  py "A|2023-03-01" ++ nl ++ py "B|2023-01-01" ++ nl ++ py "C|2023-02-01".

(** * Notions used in the further statements *)

(** Some commit of the list is filed under [k]. *)
Definition has_commit (k : str) (commits : list GitCommit) : bool :=
  existsb (fun c => PyStr.eqb (category_key c) k) commits.

(** A line of the log with at least three pipes. *)
Definition has_four_fields (line : str) : bool :=
  3 <=? count_occ ascii_dec line "|"%char.

(** The pairs the lines of a tag listing give, in the order of the lines;
    a line that is skipped or that raises gives none. *)
Definition dated_pairs (lines : list str) : list (str * Datetime.datetime) :=
  flat_map (fun line => match tag_of_line line with
                        | Ok (Some pr) => [pr]
                        | _ => []
                        end) lines.

(** The date of a token, the minimum date when the token is not a date. *)
Definition date_or_min (tok : str) : Datetime.datetime :=
  match Datetime.strptime tok with
  | Some d => d
  | None => Datetime.min
  end.

(** The exception the repository check ends with when the rev-parse
    command raises [e]. *)
Definition repository_failure (self : ReleaseNotesGenerator) (e : exn) : exn :=
  if is_CalledProcessError e then not_a_repository self else e.

(** The dated listing cannot be used: the command raised, printed nothing
    but whitespace, or one of its lines raises. *)
Definition date_branch_fails (r : res str) : Prop :=
  match r with
  | Raise _ => True
  | Ok stdout =>
      strip stdout = [] \/ exists e, tags_by_date (strip stdout) = Raise e
  end.

(** The tags of the plain listing: its lines, none when the command raised
    or printed nothing but whitespace. *)
Definition plain_listing (r : res str) : list str :=
  match r with
  | Ok stdout =>
      if truthy (strip stdout) then split_char "010" (strip stdout) else []
  | Raise _ => []
  end.

Definition is_git_call (e : event) : bool :=
  match e with GitCall _ => true | FileWrite _ _ => false end.

(** From [s] to [s'] the trace gained runs of git and nothing else. *)
Definition git_only_step {H : Host} (s s' : state) : Prop :=
  exists calls, extends s s' calls /\ forallb is_git_call calls = true.

Definition GitOnly {H : Host} {A : Type} (m : M A) : Prop :=
  forall s r s', m s = (r, s') -> git_only_step s s'.

(** A repository with the tags v2 and v1 where every git command but the
    listing fails. *)
Definition two_tags_table : list (list str * res str) :=
  [ (rev_parse_cmd, Ok (py ".git"));
    (for_each_ref_cmd,
     Ok (py "'v2|2023-02-01 10:00:00 +0000'" ++ nl
         ++ py "'v1|2023-01-01 10:00:00 +0000'")) ].

(** A directory that is not a repository. *)
Definition no_repository_table : list (list str * res str) :=
  [ (rev_parse_cmd, Raise (CalledProcessError 128 (py "fatal: not a git repository"))) ].

(** A repository whose dated listing fails and whose plain listing works. *)
Definition plain_listing_table : list (list str * res str) :=
  [ (rev_parse_cmd, Ok (py ".git"));
    (for_each_ref_cmd, Raise (CalledProcessError 129 []));
    (tag_l_cmd, Ok (py "v0.9" ++ nl ++ py "v1.0" ++ nl)) ].

(** * generate_markdown *)

Module Render.
Section Render.

(** [str.title], the library function that gives the default of the
    lookup of a section title. *)
Variable title : str -> str.

(** [datetime.now().strftime("%Y-%m-%d")], the date of the run. *)
Variable current_date : str.

(** [f"{n}"] for a length. *)
Definition str_of_nat (n : nat) : str :=
  list_ascii_of_string (NilEmpty.string_of_uint (Nat.to_uint n)).

(** [len(set(c.author for c in commits))] *)
Definition total_authors (commits : list GitCommit) : nat :=
  List.length (nodup (list_eq_dec ascii_dec) (map author commits)).

(** [d.get(k, default)] *)
Definition get_default (V : Type) (k : str) (default : V) (d : Dict.dict V)
  : V :=
  match Dict.get k d with Some v => v | None => default end.

(** The line of a commit in the section of its category. *)
Definition commit_line (commit : GitCommit) : str :=
  let scope_part :=
    if truthy (scope commit) then py " **(" ++ scope commit ++ py ")**"
    else [] in
  py "- " ++ description commit ++ scope_part
  ++ py " ([`" ++ hash commit
  ++ py "`](https://github.com/unknown/unknown/commit/" ++ hash commit
  ++ py "))" ++ nl.

(** A title line and the lines of the commits under it. *)
Definition titled (display_name : str) (commit_list : list GitCommit) : str :=
  py "## " ++ display_name ++ nl ++ nl
  ++ List.concat (map commit_line commit_list) ++ nl.

(** The body of the loop over [categorized.items()]. *)
Definition section (item : str * list GitCommit) : str :=
  let '(commit_type, commit_list) := item in
  let display_name :=
    get_default commit_type (title commit_type) COMMIT_TYPES in
  titled display_name commit_list.

(** The line of a commit in the section of all commits. *)
Definition flat_line (commit : GitCommit) : str :=
  py "- [`" ++ subject commit ++ py "`](" ++ hash commit ++ py ") - "
  ++ author commit ++ nl.

(** The title, the date and the two tags. *)
Definition header (start_tag end_tag version_title : option str) : str :=
  let version_title :=
    match version_title with
    | Some t => if truthy t then t else py "Release " ++ format_opt end_tag
    | None => py "Release " ++ format_opt end_tag
    end in
  py "# " ++ version_title ++ nl ++ nl
  ++ py "**Release Date:** " ++ current_date ++ nl ++ nl
  ++ py "**Tags:** `" ++ format_opt start_tag ++ py "` ... `"
  ++ format_opt end_tag ++ py "`" ++ nl ++ nl.

Definition summary (commits : list GitCommit) : str :=
  py "**Summary:** " ++ str_of_nat (List.length commits) ++ py " commits by "
  ++ str_of_nat (total_authors commits) ++ py " authors" ++ nl ++ nl.

Definition all_commits (commits : list GitCommit) : str :=
  py "## All Commits" ++ nl ++ nl ++ List.concat (map flat_line commits).

(** [generate_markdown(start_tag, end_tag, commits, version_title)]; a tag
    that is [None] is printed as the text None. *)
Definition generate_markdown (start_tag end_tag : option str)
           (commits : list GitCommit) (version_title : option str) : res str :=
  let markdown := header start_tag end_tag version_title in
  if negb (nonempty commits)
  then Ok (markdown ++ py "No significant changes." ++ nl ++ nl)
  else
    match categorize_commits commits with
    | Raise e => Raise e
    | Ok categorized =>
        Ok (markdown ++ summary commits
            ++ List.concat (map section categorized)
            ++ all_commits commits)
    end.

End Render.
End Render.

(** The scripted host with the renderer of the program: git answers from
    the table, the clock shows [today], and [title] stands for
    [str.title]. *)
Definition rendering (table : list (list str * res str))
           (title : str -> str) (today : str) : Host :=
  {| World := unit;
     subprocess_run := fun _ args w => (answer table args, w);
     generate_markdown :=
       fun start_tag end_tag commits version_title w =>
         (Render.generate_markdown title today start_tag end_tag commits
            version_title, w);
     write_file := fun _ _ w => (Ok tt, w) |}.

(** A repository with two tags and two commits between them. *)
Definition full_run_table : list (list str * res str) :=
  [ (rev_parse_cmd, Ok (py ".git" ++ nl));
    (for_each_ref_cmd,
     Ok (py "'v1|2023-01-01 10:00:00 +0000'" ++ nl
         ++ py "'v2|2023-02-01 10:00:00 +0000'" ++ nl));
    ([py "merge-base"; py "v1"; py "v2"], Ok (py "abc123" ++ nl));
    ([py "merge-base"; py "--is-ancestor"; py "v1"; py "v2"], Ok []);
    (log_args (Some (py "v1")) (Some (py "v2")),
     Ok (py "0123456789abcdef|Ann|Mon Jan 2|Fix: crash on start" ++ nl
         ++ py "fedcba9876543210|Ann|Sun Jan 1|feat(auth): add login" ++ nl)) ].

(** The section of an entry of the table, for the commits filed under its
    key. *)
Definition table_section (commits : list GitCommit) (entry : str * str) : str :=
  Render.titled (snd entry) (filed_under (fst entry) commits).

(** * Properties *)

(** ** The matcher *)

Section MatcherFacts.
Variable R : Type.
Implicit Types (k : str -> captures -> option R) (c : captures).

Lemma star_greedy_max p w t c k x :
  forallb p w = true -> stops p t -> k t c = Some x ->
  star_greedy p (w ++ t) c k = Some x.
Proof.
  intros Hw Ht Hk. induction w as [|a w IH]; simpl in *.
  - destruct t as [|b t]; simpl in *; [exact Hk|]. now rewrite Ht.
  - apply andb_prop in Hw as [Ha Hw]. rewrite Ha, (IH Hw). reflexivity.
Qed.

Lemma star_greedy_none p w t c k :
  forallb p w = true -> stops p t ->
  (forall w2, suffix_of w2 w -> k (w2 ++ t) c = None) ->
  star_greedy p (w ++ t) c k = None.
Proof.
  intros Hw Ht. induction w as [|a w IH]; intros Hk; simpl in *.
  - specialize (Hk [] (ex_intro _ [] eq_refl)). simpl in Hk.
    destruct t as [|b t]; simpl in *; [exact Hk|]. now rewrite Ht.
  - apply andb_prop in Hw as [Ha Hw]. rewrite Ha, IH; auto.
    + apply (Hk (a :: w)). now exists [].
    + intros w2 [w1 ->]. apply Hk. now exists (a :: w1).
Qed.

Lemma star_greedy_sound p s c k x :
  star_greedy p s c k = Some x ->
  exists w t, s = w ++ t /\ forallb p w = true /\ k t c = Some x.
Proof.
  induction s as [|a s IH]; simpl; intros Hx.
  - exists [], []. auto.
  - destruct (p a) eqn:Ha.
    + destruct (star_greedy p s c k) eqn:Hs.
      * inversion Hx; subst. destruct (IH eq_refl) as (w & t & -> & Hw & Hk).
        exists (a :: w), t. simpl. rewrite Ha. auto.
      * exists [], (a :: s). auto.
    + exists [], (a :: s). auto.
Qed.

Lemma star_greedy_complete p w t c k :
  forallb p w = true -> k t c <> None -> star_greedy p (w ++ t) c k <> None.
Proof.
  intros Hw Hk. induction w as [|a w IH]; simpl in *.
  - destruct t as [|b t]; simpl; [exact Hk|].
    destruct (p b); [|exact Hk].
    destruct (star_greedy p t c k); [discriminate|exact Hk].
  - apply andb_prop in Hw as [Ha Hw]. rewrite Ha.
    destruct (star_greedy p (w ++ t) c k) eqn:E; [discriminate|].
    now apply IH in Hw.
Qed.

(** What the matcher accepts is a text of the language, followed by what
    the rest of the pattern accepts. *)
Lemma run_sound r : forall s c k x,
  run r s c k = Some x ->
  exists p t c', s = p ++ t /\ lang r p /\ k t c' = Some x.
Proof.
  induction r as [p|r1 IH1 r2 IH2|r1 IH1 r2 IH2|r IH|p|p|r IH|n r IH];
    intros s c k x Hx; simpl in Hx.
  - destruct s as [|a s]; [discriminate|]. destruct (p a) eqn:Ha; [|discriminate].
    exists [a], s, c. repeat split; auto. now constructor.
  - apply IH1 in Hx as (p1 & t1 & c1 & -> & L1 & Hx).
    apply IH2 in Hx as (p2 & t2 & c2 & -> & L2 & Hx).
    exists (p1 ++ p2), t2, c2. rewrite <- app_assoc. repeat split; auto.
    now constructor.
  - destruct (run r1 s c k) eqn:E.
    + inversion Hx; subst. apply IH1 in E as (p & t & c' & -> & L & Hk).
      exists p, t, c'. repeat split; auto. now apply L_Alt_l.
    + apply IH2 in Hx as (p & t & c' & -> & L & Hk).
      exists p, t, c'. repeat split; auto. now apply L_Alt_r.
  - destruct (run r s c k) eqn:E.
    + inversion Hx; subst. apply IH in E as (p & t & c' & -> & L & Hk).
      exists p, t, c'. repeat split; auto. now apply L_Opt_some.
    + exists [], s, c. repeat split; auto. apply L_Opt_none.
  - apply star_greedy_sound in Hx as (w & t & -> & Hw & Hk).
    exists w, t, c. repeat split; auto. now constructor.
  - destruct s as [|a s]; [discriminate|]. destruct (p a) eqn:Ha; [|discriminate].
    apply star_greedy_sound in Hx as (w & t & -> & Hw & Hk).
    exists (a :: w), t, c. repeat split; auto. now constructor.
  - apply IH in Hx as (p & t & c' & -> & L & Hk).
    exists p, t, c'. repeat split; auto. now constructor.
  - apply IH in Hx as (p & t & c' & -> & L & Hk).
    eexists p, t, _. repeat split; eauto. now constructor.
Qed.

(** A text of the language is accepted as soon as the rest of the pattern
    accepts what follows it, whatever the groups. *)
Lemma run_complete r : forall p, lang r p -> forall t c k,
  (forall c', k t c' <> None) -> run r (p ++ t) c k <> None.
Proof.
  intros p L. induction L; intros t c k Hk; simpl.
  - rewrite H. apply Hk.
  - rewrite <- app_assoc. apply IHL1. intros c'. now apply IHL2.
  - destruct (run r1 (s ++ t) c k) eqn:E; [discriminate|].
    exfalso. now apply (IHL t c k Hk).
  - destruct (run r1 (s ++ t) c k) eqn:E; [discriminate|].
    now apply IHL.
  - destruct (run r (s ++ t) c k) eqn:E; [discriminate|].
    exfalso. now apply (IHL t c k Hk).
  - destruct (run r t c k) eqn:E; [discriminate|]. apply Hk.
  - now apply star_greedy_complete.
  - rewrite H. now apply star_greedy_complete.
  - now apply IHL.
  - apply IHL. intros c'. apply Hk.
Qed.

End MatcherFacts.

(** [re.match] succeeds exactly when the text begins with a text of the
    language of the pattern. *)
Lemma re_match_Some_iff r s :
  (exists m, re_match r s = Some m) <-> (exists p t, s = p ++ t /\ lang r p).
Proof.
  unfold re_match. split.
  - intros [m Hm]. apply run_sound in Hm as (p & t & _ & -> & L & _). eauto.
  - intros (p & t & -> & L).
    destruct (run r (p ++ t) [] (fun s' c => Some (mkMatch c s'))) eqn:E; eauto.
    exfalso. revert E. apply run_complete; [exact L|discriminate].
Qed.

Lemma re_match_None_iff r s :
  re_match r s = None <-> (forall p t, s = p ++ t -> ~ lang r p).
Proof.
  split.
  - intros E p t -> L.
    destruct (proj2 (re_match_Some_iff r (p ++ t))) as [m Hm]; eauto. congruence.
  - intros Hno. destruct (re_match r s) eqn:E; [|reflexivity].
    destruct (proj1 (re_match_Some_iff r s)) as (p & t & -> & L); eauto.
    exfalso. eapply Hno; eauto.
Qed.

(** ** parse_commit_message *)

Lemma firstn_consumed (w t : str) :
  firstn (List.length (w ++ t) - List.length t) (w ++ t) = w.
Proof.
  rewrite length_app, Nat.add_sub.
  rewrite firstn_app, Nat.sub_diag, firstn_all. simpl. apply app_nil_r.
Qed.

Section GroupFacts.
Variable R : Type.
Implicit Types (k : str -> captures -> option R) (c : captures).

Lemma run_group_star n p w t c k x :
  forallb p w = true -> stops p t ->
  k t (set_group n w c) = Some x ->
  run (Group n (Star p)) (w ++ t) c k = Some x.
Proof.
  intros Hw Ht Hk. cbn [run]. apply star_greedy_max; auto.
  now rewrite firstn_consumed.
Qed.

Lemma run_group_plus n p a w t c k x :
  p a = true -> forallb p w = true -> stops p t ->
  k t (set_group n (a :: w) c) = Some x ->
  run (Group n (Plus p)) (a :: w ++ t) c k = Some x.
Proof.
  intros Ha Hw Ht Hk. cbn [run]. rewrite Ha. apply star_greedy_max; auto.
  change (a :: w ++ t) with ((a :: w) ++ t). now rewrite firstn_consumed.
Qed.

Lemma run_group_plus_none n p a w t c k :
  p a = true -> forallb p w = true -> stops p t ->
  (forall w2 c', suffix_of w2 w -> k (w2 ++ t) c' = None) ->
  run (Group n (Plus p)) (a :: w ++ t) c k = None.
Proof.
  intros Ha Hw Ht Hk. cbn [run]. rewrite Ha. apply star_greedy_none; auto.
Qed.
End GroupFacts.

Section RunEquations.
Variable R : Type.
Implicit Types (k : str -> captures -> option R) (c : captures).

Lemma run_seq r1 r2 s c k :
  run (Seq r1 r2) s c k = run r1 s c (fun s' c' => run r2 s' c' k).
Proof. reflexivity. Qed.

Lemma run_opt r s c k :
  run (Opt r) s c k
  = match run r s c k with Some x => Some x | None => k s c end.
Proof. reflexivity. Qed.

Lemma run_noncap r s c k : run (NonCap r) s c k = run r s c k.
Proof. reflexivity. Qed.

Lemma run_lit_hit a s c k : run (lit a) (a :: s) c k = k s c.
Proof. unfold lit. cbn [run]. now rewrite Ascii.eqb_refl. Qed.

Lemma run_lit_miss a b s c k :
  Ascii.eqb a b = false -> run (lit a) (b :: s) c k = None.
Proof. intros E. unfold lit. cbn [run]. now rewrite E. Qed.

Lemma run_lit_nil a c k : run (lit a) [] c k = None.
Proof. reflexivity. Qed.
End RunEquations.

Lemma word_not_lparen a : is_word a = true -> Ascii.eqb "("%char a = false.
Proof.
  intros Hw. destruct (Ascii.eqb_spec "("%char a) as [<-|]; [|reflexivity].
  discriminate Hw.
Qed.

Lemma word_not_colon a : is_word a = true -> Ascii.eqb ":"%char a = false.
Proof.
  intros Hw. destruct (Ascii.eqb_spec ":"%char a) as [<-|]; [|reflexivity].
  discriminate Hw.
Qed.

Lemma stops_word_scope sc x : stops is_word (scope_text sc ++ ":"%char :: x).
Proof. destruct sc; reflexivity. Qed.

(** The pattern from the colon on: the whitespace is skipped and group 3
    takes the rest of the line. *)
Lemma run_from_colon ws rest c :
  forallb is_space ws = true -> stops is_space rest ->
  forallb dot rest = true ->
  run (Seq (lit ":"%char) (Seq (Star is_space) (Group 3 (Star dot))))
      (":"%char :: ws ++ rest) c (fun s' c' => Some (mkMatch c' s'))
  = Some (mkMatch (set_group 3 rest c) []).
Proof.
  intros Hws Hstop Hrest. rewrite run_seq, run_lit_hit, run_seq.
  cbn [run]. apply star_greedy_max; auto.
  rewrite <- (app_nil_r rest) at 1.
  apply star_greedy_max; auto; [exact I|].
  simpl. rewrite Nat.sub_0_r, firstn_all. reflexivity.
Qed.

(** The pattern after the type: the optional scope, then the colon. *)
Lemma run_from_scope sc ws rest c :
  scope_ok sc -> forallb is_space ws = true -> stops is_space rest ->
  forallb dot rest = true ->
  run (Seq (Opt (NonCap (Seq (lit "("%char)
                        (Seq (Group 2 (Plus not_rparen)) (lit ")"%char)))))
           (Seq (lit ":"%char) (Seq (Star is_space) (Group 3 (Star dot)))))
      (scope_text sc ++ ":"%char :: ws ++ rest) c
      (fun s' c' => Some (mkMatch c' s'))
  = Some (mkMatch
            (set_group 3 rest
               (match sc with Some s => set_group 2 s c | None => c end)) []).
Proof.
  intros Hsc Hws Hstop Hrest.
  destruct sc as [s|].
  - destruct Hsc as [Hne Hs]. destruct s as [|b s]; [congruence|].
    simpl in Hs. apply andb_prop in Hs as [Hb Hs].
    cbn [scope_text app]. rewrite <- app_assoc. cbn [app].
    rewrite run_seq, run_opt, run_noncap, run_seq, run_lit_hit, run_seq.
    erewrite (run_group_plus (R := match_obj)); [reflexivity|exact Hb|exact Hs|reflexivity|].
    cbn beta. rewrite run_lit_hit. now apply run_from_colon.
  - cbn [scope_text app].
    rewrite run_seq, run_opt, run_noncap, run_seq, run_lit_miss by reflexivity.
    now apply run_from_colon.
Qed.

(** The result of the parser on a line made of a word token, an optional
    scope, a colon, any whitespace and the rest of the line. *)
Lemma parse_shape ty sc ws rest :
  ty <> [] -> forallb is_word ty = true -> scope_ok sc ->
  forallb is_space ws = true -> stops is_space rest ->
  forallb dot rest = true ->
  parse_commit_message (ty ++ scope_text sc ++ ":"%char :: ws ++ rest)
  = (lower ty, scope_value sc, rest).
Proof.
  intros Hne Hty Hsc Hws Hstop Hrest.
  destruct ty as [|a ty]; [congruence|].
  simpl in Hty. apply andb_prop in Hty as [Ha Hty].
  unfold parse_commit_message, re_match, pattern.
  cbn [app]. rewrite run_seq.
  erewrite (run_group_plus (R := match_obj) 1 is_word a ty);
    [| exact Ha | exact Hty | apply stops_word_scope
     | cbn beta; apply run_from_scope; assumption ].
  unfold group_or_empty. cbn.
  destruct sc as [s|]; cbn; [|reflexivity].
  destruct Hsc as [Hs _]. destruct s; [congruence|reflexivity].
Qed.

(** The language of the pattern, spelled out. *)
Lemma lang_pattern_iff p :
  lang pattern p <->
  exists ty sc ws d,
    p = ty ++ scope_text sc ++ ":"%char :: ws ++ d /\
    ty <> [] /\ forallb is_word ty = true /\ scope_ok sc /\
    forallb is_space ws = true /\ forallb dot d = true.
Proof.
  split.
  - intros L. unfold pattern, lit in L.
    repeat match goal with
           | H : lang (Seq _ _) _ |- _ => inversion H; clear H; subst
           | H : lang (Group _ _) _ |- _ => inversion H; clear H; subst
           | H : lang (Cls _) _ |- _ => inversion H; clear H; subst
           | H : lang (Star _) _ |- _ => inversion H; clear H; subst
           | H : lang (Plus is_word) _ |- _ => inversion H; clear H; subst
           | H : Ascii.eqb _ _ = true |- _ => apply Ascii.eqb_eq in H; subst
           end.
    match goal with H : lang (Opt _) _ |- _ => inversion H; clear H; subst end.
    + repeat match goal with
             | H : lang (Seq _ _) _ |- _ => inversion H; clear H; subst
             | H : lang (NonCap _) _ |- _ => inversion H; clear H; subst
             | H : lang (Group _ _) _ |- _ => inversion H; clear H; subst
             | H : lang (Cls _) _ |- _ => inversion H; clear H; subst
             | H : lang (Plus _) _ |- _ => inversion H; clear H; subst
             | H : Ascii.eqb _ _ = true |- _ => apply Ascii.eqb_eq in H; subst
             end.
      match goal with
      | Ha : is_word ?a = true, Hs : forallb is_word ?s = true,
        Hb : not_rparen ?b = true, Ht : forallb not_rparen ?t = true,
        Hw : forallb is_space ?ws = true, Hd : forallb dot ?d = true |- _ =>
          exists (a :: s), (Some (b :: t)), ws, d
      end.
      repeat split; auto; try discriminate;
        try (cbn [forallb]; apply andb_true_intro; split; assumption).
    + match goal with
      | Ha : is_word ?a = true, Hs : forallb is_word ?s = true,
        Hw : forallb is_space ?ws = true, Hd : forallb dot ?d = true |- _ =>
          exists (a :: s), None, ws, d
      end.
      repeat split; auto; try discriminate;
        try (cbn [forallb]; apply andb_true_intro; split; assumption).
  - intros (ty & sc & ws & d & -> & Hne & Hty & Hsc & Hws & Hd).
    destruct ty as [|a ty]; [congruence|].
    simpl in Hty. apply andb_prop in Hty as [Ha Hty].
    unfold pattern. change (a :: ty) with ([] ++ a :: ty).
    rewrite app_nil_l.
    apply (L_Seq (r1 := Group 1 (Plus is_word))); [now repeat constructor|].
    apply L_Seq.
    + destruct sc as [s|]; [|apply L_Opt_none].
      destruct Hsc as [Hs Hs']. destruct s as [|b s]; [congruence|].
      simpl in Hs'. apply andb_prop in Hs' as [Hb Hs'].
      apply L_Opt_some, L_NonCap.
      apply (L_Seq (r1 := lit "("%char) (s1 := ["("%char])); [now constructor|].
      apply L_Seq; repeat constructor; auto.
    + apply (L_Seq (r1 := lit ":"%char) (s1 := [":"%char])); [now constructor|].
      apply L_Seq; repeat constructor; auto.
Qed.

(** A line is conventional exactly when [re.match] finds the pattern at its
    start. *)
Lemma conventional_iff_match message :
  conventional message <-> exists m, re_match pattern message = Some m.
Proof.
  rewrite re_match_Some_iff. split.
  - intros (ty & sc & tail & -> & Hne & Hty & Hsc).
    exists (ty ++ scope_text sc ++ [":"%char]), tail. split.
    + now rewrite <- !app_assoc.
    + apply lang_pattern_iff. exists ty, sc, [], []. repeat split; auto.
  - intros (p & t & -> & L).
    apply lang_pattern_iff in L
      as (ty & sc & ws & d & -> & Hne & Hty & Hsc & _ & _).
    exists ty, sc, ((ws ++ d) ++ t). repeat split; auto.
    rewrite <- (app_assoc ty), <- (app_assoc (scope_text sc)). reflexivity.
Qed.

Lemma parse_unmatched message :
  re_match pattern message = None ->
  parse_commit_message message = (py "other", [], message).
Proof. intros E. unfold parse_commit_message. now rewrite E. Qed.

(** C1: a subject line made of a word token, an optional non-empty scope
    between parentheses, a colon, whitespace and the rest of the line is
    parsed into the token in lower case, the inner text of the scope (the
    empty string without a scope) and the rest of the line unchanged,
    further colons included.  The whitespace is the whole run after the
    colon: the rest begins at the first character that is not whitespace. *)
Theorem parse_conventional_subject (ty : str) (sc : option str) (ws rest : str)
  (Hty : ty <> []) (Hword : forallb is_word ty = true) (Hsc : scope_ok sc)
  (Hws : ws <> []) (Hspace : forallb is_space ws = true)
  (Hstop : stops is_space rest) (Hline : forallb dot rest = true) :
  parse_commit_message (ty ++ scope_text sc ++ ":"%char :: ws ++ rest)
  = (lower ty, scope_value sc, rest).
Proof. now apply parse_shape. Qed.

Lemma parse_conventional_subject_witness :
  parse_commit_message (py "Feat(scope): fix: important issue")
  = (py "feat", py "scope", py "fix: important issue").
Proof.
  apply (@parse_conventional_subject
           (py "Feat") (Some (py "scope")) (py " ") (py "fix: important issue")).
  - discriminate.
  - reflexivity.
  - split; [discriminate | reflexivity].
  - discriminate.
  - reflexivity.
  - reflexivity.
  - reflexivity.
Defined.

Lemma not_conventional_by_match message :
  re_match pattern message = None -> ~ conventional message.
Proof.
  intros E Hc. apply conventional_iff_match in Hc as [m Hm]. congruence.
Qed.

Lemma forallb_suffix (p : ascii -> bool) w2 w :
  suffix_of w2 w -> forallb p w = true -> forallb p w2 = true.
Proof.
  intros [w1 ->] Hw. rewrite forallb_app in Hw. now apply andb_prop in Hw.
Qed.

(** The pattern after the type fails on a text that begins with a word
    character or with an empty pair of parentheses. *)
Lemma run_after_type_none w2 tail c :
  forallb is_word w2 = true ->
  run (Seq (Opt (NonCap (Seq (lit "("%char)
                        (Seq (Group 2 (Plus not_rparen)) (lit ")"%char)))))
           (Seq (lit ":"%char) (Seq (Star is_space) (Group 3 (Star dot)))))
      (w2 ++ "("%char :: ")"%char :: tail) c
      (fun s' c' => Some (mkMatch c' s'))
  = None.
Proof.
  intros Hw. destruct w2 as [|b w2].
  - cbn [app].
    rewrite run_seq, run_opt, run_noncap, run_seq, run_lit_hit, run_seq.
    cbn [run]. change (not_rparen ")"%char) with false. cbn iota.
    now rewrite run_lit_miss.
  - simpl in Hw. apply andb_prop in Hw as [Hb _]. cbn [app].
    rewrite run_seq, run_opt, run_noncap, run_seq.
    rewrite run_lit_miss by now apply word_not_lparen.
    rewrite run_seq. rewrite run_lit_miss by now apply word_not_colon.
    reflexivity.
Qed.

(** C3: a subject line with an empty pair of parentheses right after its
    leading word token does not match: the result is the category "other",
    an empty scope and the whole line as its description. *)
Theorem parse_empty_scope (ty tail : str)
  (Hword : forallb is_word ty = true) :
  parse_commit_message (ty ++ "("%char :: ")"%char :: tail)
  = (py "other", [], ty ++ "("%char :: ")"%char :: tail).
Proof.
  apply parse_unmatched. unfold re_match, pattern.
  destruct ty as [|a ty]; [reflexivity|].
  simpl in Hword. apply andb_prop in Hword as [Ha Hty].
  rewrite run_seq. cbn [app].
  apply run_group_plus_none; auto; [reflexivity|].
  intros w2 c' Hsuf. apply run_after_type_none.
  now apply (forallb_suffix _ Hsuf).
Qed.

Lemma parse_empty_scope_witness :
  parse_commit_message (py "chore(): ") = (py "other", [], py "chore(): ").
Proof.
  apply (@parse_empty_scope (py "chore") (py ": ")). reflexivity.
Defined.

(** C4, as the code has it: on a line made of a word token, an optional
    non-empty scope between parentheses, a colon and then at once a
    character that is not whitespace, the pattern matches, since the
    whitespace after the colon may be empty; the result is the token in
    lower case, the inner text of the scope and everything after the
    colon. *)
Theorem parse_without_space (ty : str) (sc : option str) (a : ascii) (rest : str)
  (Hty : ty <> []) (Hword : forallb is_word ty = true) (Hsc : scope_ok sc)
  (Ha : is_space a = false) (Hline : forallb dot (a :: rest) = true) :
  parse_commit_message (ty ++ scope_text sc ++ ":"%char :: a :: rest)
  = (lower ty, scope_value sc, a :: rest).
Proof. now apply (@parse_shape ty sc [] (a :: rest)). Qed.

Lemma parse_without_space_witness :
  parse_commit_message (py "fix(api):desc") = (py "fix", py "api", py "desc").
Proof.
  apply (@parse_without_space (py "fix") (Some (py "api")) "d"%char (py "esc")).
  - discriminate.
  - reflexivity.
  - split; [discriminate | reflexivity].
  - reflexivity.
  - reflexivity.
Defined.

(** C4 as stated fails on "fix:desc": a word token, a colon and at once a
    character that is not whitespace, yet the line is parsed as a fix. *)
Lemma parse_fix_desc_not_other :
  py "fix:desc" = py "fix" ++ scope_text None ++ ":"%char :: "d"%char :: py "esc"
  /\ forallb is_word (py "fix") = true
  /\ is_space "d"%char = false
  /\ parse_commit_message (py "fix:desc") = (py "fix", [], py "desc")
  /\ parse_commit_message (py "fix:desc") <> (py "other", [], py "fix:desc").
Proof. repeat split. discriminate. Qed.

(** ** categorize_commits *)

Lemma str_eqb_eq s t : PyStr.eqb s t = true <-> s = t.
Proof.
  unfold PyStr.eqb. destruct (list_eq_dec ascii_dec s t); split; congruence.
Qed.

Lemma str_eqb_neq s t : PyStr.eqb s t = false <-> s <> t.
Proof.
  unfold PyStr.eqb. destruct (list_eq_dec ascii_dec s t); split; congruence.
Qed.

Lemma str_eqb_refl s : PyStr.eqb s s = true.
Proof. now apply str_eqb_eq. Qed.

Section DictFacts.
Variable V : Type.
Implicit Types (d : Dict.dict V) (k : str).

Lemma mem_In_keys k d : Dict.mem k d = true <-> In k (Dict.keys d).
Proof.
  unfold Dict.mem, Dict.keys. rewrite existsb_exists, in_map_iff. split.
  - intros (kv & Hin & E). apply str_eqb_eq in E. eauto.
  - intros (kv & E & Hin). exists kv. split; auto. now apply str_eqb_eq.
Qed.

End DictFacts.

Lemma mem_same_keys (V W : Type) k (d : Dict.dict V) (d' : Dict.dict W) :
  Dict.keys d = Dict.keys d' -> Dict.mem k d = Dict.mem k d'.
Proof.
  intros E. destruct (Dict.mem k d') eqn:M.
  - apply mem_In_keys. rewrite E. now apply mem_In_keys.
  - destruct (Dict.mem k d) eqn:M'; [|reflexivity].
    apply mem_In_keys in M'. rewrite E in M'. apply mem_In_keys in M'.
    congruence.
Qed.

(** Appending under a key that is there changes the list of that key and
    nothing else. *)
Lemma append_at_present (X : Type) k (x : X) (d : Dict.dict (list X)) :
  NoDup (Dict.keys d) -> Dict.mem k d = true ->
  Dict.append_at k x d
  = Some (map (fun kv => (fst kv, if PyStr.eqb (fst kv) k
                                  then snd kv ++ [x] else snd kv)) d).
Proof.
  induction d as [|[k' v] d IH]; intros Hnd Hmem; [discriminate|].
  inversion Hnd as [|? ? Hnotin Hnd']; subst.
  cbn [Dict.append_at map fst snd].
  destruct (PyStr.eqb k' k) eqn:E.
  - apply str_eqb_eq in E; subst k'. do 2 f_equal.
    rewrite <- (map_id d) at 1. apply map_ext_in.
    intros [k2 v2] Hin. cbn [fst snd].
    destruct (PyStr.eqb k2 k) eqn:E2; [|reflexivity].
    apply str_eqb_eq in E2; subst k2. exfalso. apply Hnotin.
    apply in_map_iff. now exists (k, v2).
  - unfold Dict.mem in Hmem. cbn [existsb fst] in Hmem. rewrite E in Hmem.
    rewrite (IH Hnd' Hmem). reflexivity.
Qed.

Lemma keys_COMMIT_TYPES_NoDup : NoDup (Dict.keys COMMIT_TYPES).
Proof.
  unfold Dict.keys, COMMIT_TYPES. cbn [map fst].
  repeat (constructor;
          [ cbn [In]; intros Hin;
            repeat (destruct Hin as [Hin|Hin]; [discriminate Hin|]);
            exact Hin |]).
  constructor.
Qed.

Lemma other_in_COMMIT_TYPES : In (py "other") (Dict.keys COMMIT_TYPES).
Proof. apply mem_In_keys. reflexivity. Qed.

Lemma category_key_in c : In (category_key c) (Dict.keys COMMIT_TYPES).
Proof.
  unfold category_key. destruct (Dict.mem (type c) COMMIT_TYPES) eqn:M.
  - now apply mem_In_keys.
  - apply other_in_COMMIT_TYPES.
Qed.

(** One step of the loop: the commit goes to the end of the list of its
    key. *)
Lemma add_commit_spec d c :
  Dict.keys d = Dict.keys COMMIT_TYPES ->
  add_commit d c
  = Some (map (fun kv => (fst kv, if PyStr.eqb (fst kv) (category_key c)
                                  then snd kv ++ [c] else snd kv)) d).
Proof.
  intros Hk. unfold add_commit, category_key.
  rewrite (mem_same_keys (type c) d COMMIT_TYPES Hk).
  destruct (Dict.mem (type c) COMMIT_TYPES) eqn:M.
  - apply append_at_present.
    + rewrite Hk. apply keys_COMMIT_TYPES_NoDup.
    + now rewrite (mem_same_keys (type c) d COMMIT_TYPES Hk).
  - apply append_at_present.
    + rewrite Hk. apply keys_COMMIT_TYPES_NoDup.
    + now rewrite (mem_same_keys (py "other") d COMMIT_TYPES Hk).
Qed.

Lemma add_commits_spec commits : forall d,
  Dict.keys d = Dict.keys COMMIT_TYPES ->
  add_commits d commits
  = Some (map (fun kv => (fst kv, snd kv ++ filed_under (fst kv) commits)) d).
Proof.
  induction commits as [|c commits IH]; intros d Hk; cbn [add_commits].
  - f_equal. rewrite <- (map_id d) at 1. apply map_ext.
    intros [k v]. cbn. now rewrite app_nil_r.
  - rewrite (add_commit_spec d c Hk). rewrite IH.
    + f_equal. rewrite map_map. apply map_ext. intros [k v]. cbn [fst snd].
      unfold filed_under. cbn [filter].
      destruct (PyStr.eqb k (category_key c)) eqn:E.
      * apply str_eqb_eq in E; subst k. rewrite str_eqb_refl.
        now rewrite <- app_assoc.
      * apply str_eqb_neq in E.
        destruct (PyStr.eqb (category_key c) k) eqn:E'; [|reflexivity].
        apply str_eqb_eq in E'. congruence.
    + unfold Dict.keys in *. rewrite map_map. cbn [fst]. exact Hk.
Qed.

Lemma categorize_commits_eq commits :
  categorize_commits commits
  = Ok (filter (fun kv => nonempty (snd kv)) (all_categories commits)).
Proof.
  unfold categorize_commits.
  rewrite add_commits_spec by reflexivity. reflexivity.
Qed.

Lemma concat_drop_empty (X : Type) (d : Dict.dict (list X)) :
  List.concat (map snd (filter (fun kv => nonempty (snd kv)) d))
  = List.concat (map snd d).
Proof.
  induction d as [|[k v] d IH]; [reflexivity|].
  cbn [filter snd]. destruct v as [|x v]; cbn [nonempty map List.concat snd].
  - exact IH.
  - now rewrite IH.
Qed.

(** Putting one more element in front of the group of one key puts it
    somewhere in the concatenation of the groups. *)
Lemma concat_groups_cons (X : Type) (x : X) (k0 : str) (g : str -> list X) :
  forall K, NoDup K -> In k0 K ->
  Permutation
    (List.concat (map (fun k => if PyStr.eqb k0 k then x :: g k else g k) K))
    (x :: List.concat (map g K)).
Proof.
  induction K as [|k K IH]; intros Hnd Hin; [contradiction|].
  inversion Hnd as [|? ? Hnotin Hnd']; subst. cbn [map List.concat].
  destruct (PyStr.eqb k0 k) eqn:E.
  - apply str_eqb_eq in E; subst k. cbn [app]. constructor.
    apply Permutation_app_head.
    erewrite map_ext_in; [reflexivity|].
    intros k Hk. cbn beta.
    destruct (PyStr.eqb k0 k) eqn:E; [|reflexivity].
    apply str_eqb_eq in E; subst k. contradiction.
  - apply str_eqb_neq in E. destruct Hin as [->|Hin]; [congruence|].
    rewrite (IH Hnd' Hin). symmetry. apply Permutation_middle.
Qed.

Lemma concat_groups_perm (commits : list GitCommit) :
  Permutation
    (List.concat (map (fun k => filed_under k commits) (Dict.keys COMMIT_TYPES)))
    commits.
Proof.
  induction commits as [|c commits IH].
  - unfold filed_under. cbn [filter].
    induction (Dict.keys COMMIT_TYPES); cbn; auto.
  - unfold filed_under in *. cbn [filter].
    rewrite (concat_groups_cons c (category_key c)
               (fun k => filter (fun c0 => PyStr.eqb (category_key c0) k) commits)
               keys_COMMIT_TYPES_NoDup (category_key_in c)).
    now constructor.
Qed.

Lemma in_all_categories k v commits :
  In (k, v) (all_categories commits) <->
  In k (Dict.keys COMMIT_TYPES) /\ v = filed_under k commits.
Proof.
  unfold all_categories. rewrite in_map_iff. split.
  - intros (k' & E & Hin). inversion E; subst. auto.
  - intros [Hin ->]. eauto.
Qed.

(** C8: categorize_commits returns a dictionary (no subscript fails) in
    which no key is bound to an empty list and no key occurs twice; the list
    of a key holds exactly the input commits filed under that key, in their
    input order, where a commit is filed under its type when the table has
    it and under "other" when it does not; so every input commit is in the
    list of one key and of no other, and the lists together are a
    permutation of the input. *)
Theorem categorize_commits_partition (commits : list GitCommit) :
  exists categorized,
    categorize_commits commits = Ok categorized /\
    (forall k v, In (k, v) categorized -> v <> []) /\
    NoDup (Dict.keys categorized) /\
    (forall k v, In (k, v) categorized -> v = filed_under k commits) /\
    (forall c, In c commits ->
       exists v, In (category_key c, v) categorized /\ In c v) /\
    (forall c k v, In (k, v) categorized -> In c v -> k = category_key c) /\
    (forall c, Dict.mem (type c) COMMIT_TYPES = false ->
       category_key c = py "other") /\
    Permutation (List.concat (map snd categorized)) commits.
Proof.
  eexists. split; [apply categorize_commits_eq|].
  repeat split.
  - intros k v Hin. apply filter_In in Hin as [_ Hne].
    destruct v; [discriminate|discriminate].
  - unfold Dict.keys. apply NoDup_map_inv with (f := fun k => k).
    rewrite map_id.
    assert (Hsub : forall (K : list str),
               NoDup K ->
               NoDup (map fst (filter (fun kv : str * list GitCommit =>
                                         nonempty (snd kv))
                                 (map (fun k => (k, filed_under k commits)) K)))).
    { induction K as [|k K IHK]; intros Hnd; [constructor|].
      inversion Hnd as [|? ? Hnotin Hnd']; subst. cbn [map filter snd].
      destruct (nonempty (filed_under k commits)); [|now apply IHK].
      cbn [map fst]. constructor; [|now apply IHK].
      intros Hin. apply Hnotin. apply in_map_iff in Hin as ([k' v'] & E & Hin).
      cbn in E; subst k'. apply filter_In in Hin as [Hin _].
      apply in_map_iff in Hin as (k'' & E & Hin). now inversion E; subst. }
    apply Hsub, keys_COMMIT_TYPES_NoDup.
  - intros k v Hin. apply filter_In in Hin as [Hin _].
    now apply in_all_categories in Hin.
  - intros c Hin. exists (filed_under (category_key c) commits).
    assert (Hc : In c (filed_under (category_key c) commits)).
    { apply filter_In. split; [exact Hin|apply str_eqb_refl]. }
    split; [|exact Hc]. apply filter_In. split.
    + apply in_all_categories. split; [apply category_key_in|reflexivity].
    + cbn [snd]. destruct (filed_under (category_key c) commits);
        [contradiction|reflexivity].
  - intros c k v Hin Hc. apply filter_In in Hin as [Hin _].
    apply in_all_categories in Hin as [_ ->].
    apply filter_In in Hc as [_ E]. apply str_eqb_eq in E. now symmetry.
  - intros c M. unfold category_key. now rewrite M.
  - rewrite concat_drop_empty. unfold all_categories. rewrite map_map.
    cbn [snd]. apply concat_groups_perm.
Qed.

Example categorize_three :
  categorize_commits
    [ Commit.new (py "abc123") (py "fix: resolve bug") (py "A") (py "d");
      Commit.new (py "def456") (py "unknown: some commit") (py "A") (py "d");
      Commit.new (py "ghi789") (py "FIX(api): again") (py "A") (py "d") ]
  = Ok [ (py "fix",
          [ Commit.new (py "abc123") (py "fix: resolve bug") (py "A") (py "d");
            Commit.new (py "ghi789") (py "FIX(api): again") (py "A") (py "d") ]);
         (py "other",
          [ Commit.new (py "def456") (py "unknown: some commit") (py "A") (py "d") ]) ].
Proof. reflexivity. Qed.

(** ** Tag selection *)

Lemma opt_eqb_eq a b : opt_eqb a b = true <-> a = b.
Proof.
  destruct a as [x|], b as [y|]; cbn; try (split; congruence).
  rewrite str_eqb_eq. split; congruence.
Qed.

(** [first_other tags e] is the first tag of the list that differs from
    [e]. *)
Lemma first_other_Some tags e t :
  first_other tags e = Some t <->
  exists before after,
    tags = before ++ t :: after /\
    Forall (fun x => Some x = e) before /\ Some t <> e.
Proof.
  induction tags as [|x tags IH]; cbn [first_other].
  - split; [discriminate|]. intros (b & a & E & _). now destruct b.
  - destruct (opt_eqb (Some x) e) eqn:E; cbn [negb].
    + apply opt_eqb_eq in E. rewrite IH. split.
      * intros (b & a & -> & Hb & Ht). exists (x :: b), a. auto.
      * intros ([|y b] & a & Heq & Hb & Ht); inversion Heq; subst.
        -- contradiction.
        -- inversion Hb; subst. eauto.
    + assert (Hx : Some x <> e).
      { intros Hx. apply opt_eqb_eq in Hx. congruence. }
      split.
      * intros Ht. inversion Ht; subst. exists [], tags. auto.
      * intros ([|y b] & a & Heq & Hb & Ht); inversion Heq; subst; auto.
        inversion Hb; subst. contradiction.
Qed.

(** C6, as the code has it: for a list of at least two tags the selection
    succeeds; without an end tag from the caller the resolved end tag is the
    first tag of the list, otherwise it is the caller's; without a start
    tag from the caller the resolved start tag is the first tag after the
    head of the list that differs from the resolved end tag, when there is
    one; and when the caller gave no end tag either, that tag is the first
    tag of the whole list that differs from the resolved end tag. *)
Theorem select_tags_defaults (all_tags : list str) (start_tag end_tag : option str)
  (Hlen : 2 <= List.length all_tags) :
  exists s e,
    select_tags all_tags start_tag end_tag = Ok (s, e) /\
    (truthy_opt end_tag = false -> e = hd_error all_tags) /\
    (truthy_opt end_tag = true -> e = end_tag) /\
    (truthy_opt start_tag = true -> s = start_tag) /\
    (truthy_opt start_tag = false ->
       forall t, first_other (tl all_tags) e = Some t -> s = Some t) /\
    (truthy_opt start_tag = false -> truthy_opt end_tag = false ->
       forall t, first_other all_tags e = Some t -> s = Some t).
Proof.
  destruct all_tags as [|t0 tags]; [cbn in Hlen; lia|].
  unfold select_tags. cbn [tl hd_error].
  destruct (truthy_opt end_tag) eqn:Ee; cbn [negb];
    destruct (truthy_opt start_tag) eqn:Es; cbn [negb];
    eexists _, _; (split; [reflexivity|]);
    repeat split; try discriminate; auto.
  - intros _ t Ht. now rewrite Ht.
  - intros _ t Ht. now rewrite Ht.
  - intros _ _ t Ht. cbn [first_other] in Ht.
    rewrite (proj2 (opt_eqb_eq (Some t0) (Some t0)) eq_refl) in Ht.
    cbn [negb] in Ht. now rewrite Ht.
Qed.

Lemma select_tags_defaults_witness :
  select_tags [py "v3"; py "v2"; py "v1"] None None
  = Ok (Some (py "v2"), Some (py "v3")).
Proof.
  destruct (@select_tags_defaults [py "v3"; py "v2"; py "v1"] None None)
    as (s & e & -> & He & _ & _ & Hs & _).
  - cbn. lia.
  - pose proof (He eq_refl) as E. subst e.
    rewrite (Hs eq_refl (py "v2") eq_refl). reflexivity.
Defined.

(** C6 as stated fails when the caller gives an end tag that is not the
    newest: with the tags v3, v2, v1 and the end tag v1, the first tag of
    the list that differs from the end tag is v3, yet the start tag is v2. *)
Lemma select_tags_skips_newest :
  select_tags [py "v3"; py "v2"; py "v1"] None (Some (py "v1"))
  = Ok (Some (py "v2"), Some (py "v1"))
  /\ first_other [py "v3"; py "v2"; py "v1"] (Some (py "v1")) = Some (py "v3")
  /\ Some (py "v2") <> Some (py "v3").
Proof. repeat split. discriminate. Qed.

(** ** Running git *)

Section HostFacts.
Context {H : Host}.
Variable self : ReleaseNotesGenerator.

(** What [run_git_command] returns, from what the process did. *)
Lemma run_git_command_cases command allow_failure s :
  match command_line command with
  | None => run_git_command self command allow_failure s = (Raise TypeError, s)
  | Some args =>
      let tr := trace s ++ [GitCall args] in
      match subprocess_run (repo_path self) args (world s) with
      | (Ok stdout, w) =>
          run_git_command self command allow_failure s
          = (Ok (Some (strip stdout)), mkState w tr)
      | (Raise e, w) =>
          run_git_command self command allow_failure s
          = (if is_CalledProcessError e && allow_failure
             then Ok None else Raise e, mkState w tr)
      end
  end.
Proof.
  unfold run_git_command, try_except.
  destruct (command_line command) as [args|]; [|reflexivity].
  unfold bind, log, lift, ret, raise. cbn [world trace].
  destruct (subprocess_run (repo_path self) args (world s)) as [[out|e] w];
    [reflexivity|].
  destruct e; destruct allow_failure; reflexivity.
Qed.

(** With [allow_failure] the only exceptions left are those that are not
    [CalledProcessError]. *)
Lemma run_git_command_lenient command s e s' :
  run_git_command self command true s = (Raise e, s') ->
  is_CalledProcessError e = false.
Proof.
  pose proof (run_git_command_cases command true s) as Hc.
  destruct (command_line command) as [args|].
  - cbn zeta in Hc.
    destruct (subprocess_run (repo_path self) args (world s)) as [[out|e0] w];
      rewrite Hc; intros E; inversion E; subst.
    destruct (is_CalledProcessError e0) eqn:Ee; [discriminate|].
    cbn in H1. now inversion H1; subst.
  - rewrite Hc. intros E. now inversion E; subst.
Qed.

(** C7: the ancestry correction, from what the two commands did.  It
    always ends with a pair, never with an exception.  The first command
    run is [git merge-base start end]; when it prints nothing, exits with a
    non-zero status or fails in any other way, the pair is unchanged and no
    second command is run.  When it prints a common ancestor, the second
    command is [git merge-base --is-ancestor start end]: exit status 0
    keeps the pair; any non-zero exit status swaps it, be it status 1 (start
    is not an ancestor of end) or the status of a failed command; a
    failure that is not an exit status keeps the pair.  With a tag that is
    not set no command is run and the pair is unchanged. *)
Theorem order_tags_outcome (start_tag end_tag : option str) (s : state) :
  match start_tag, end_tag with
  | Some a, Some b =>
      let common := [py "merge-base"; a; b] in
      let check := [py "merge-base"; py "--is-ancestor"; a; b] in
      let t1 := trace s ++ [GitCall common] in
      let t2 := t1 ++ [GitCall check] in
      match subprocess_run (repo_path self) common (world s) with
      | (Raise _, w1) =>
          order_tags self start_tag end_tag s
          = (Ok (start_tag, end_tag), mkState w1 t1)
      | (Ok stdout, w1) =>
          if truthy (strip stdout) then
            match subprocess_run (repo_path self) check w1 with
            | (Ok _, w2) =>
                order_tags self start_tag end_tag s
                = (Ok (start_tag, end_tag), mkState w2 t2)
            | (Raise e, w2) =>
                order_tags self start_tag end_tag s
                = (Ok (if is_CalledProcessError e
                       then (end_tag, start_tag)
                       else (start_tag, end_tag)), mkState w2 t2)
            end
          else
            order_tags self start_tag end_tag s
            = (Ok (start_tag, end_tag), mkState w1 t1)
      end
  | _, _ =>
      order_tags self start_tag end_tag s = (Ok (start_tag, end_tag), s)
  end.
Proof.
  destruct start_tag as [a|], end_tag as [b|]; try reflexivity.
  unfold order_tags, try_except, bind, ret.
  pose proof (run_git_command_cases
                (merge_base_cmd (Some a) (Some b)) true s) as C1.
  cbn [merge_base_cmd command_line] in C1. cbn zeta in *.
  destruct (subprocess_run (repo_path self) [py "merge-base"; a; b] (world s))
    as [[stdout|e] w1]; rewrite C1.
  - cbn [truthy_opt]. destruct (truthy (strip stdout)); [|reflexivity].
    pose proof (run_git_command_cases
                  (is_ancestor_cmd (Some a) (Some b)) false
                  (mkState w1 (trace s ++ [GitCall [py "merge-base"; a; b]])))
      as C2.
    cbn [is_ancestor_cmd command_line world trace] in C2. cbn zeta in C2.
    destruct (subprocess_run (repo_path self)
                [py "merge-base"; py "--is-ancestor"; a; b] w1)
      as [[x|e] w2]; rewrite C2; [reflexivity|].
    rewrite andb_false_r.
    destruct (is_CalledProcessError e); reflexivity.
  - destruct (is_CalledProcessError e); reflexivity.
Qed.

End HostFacts.

(** The three ways of the ancestry correction on concrete repositories:
    the check exits with status 1 and the pair is swapped; the check exits
    with status 0 and the pair is kept; the tags have no common ancestor
    and the check is not run. *)
Lemma order_tags_outcome_witness :
  (order_tags (H := scripted ancestry_table) here
              (Some (py "v2")) (Some (py "v1")) (fresh ancestry_table)
   = (Ok (Some (py "v1"), Some (py "v2")),
      @mkState (scripted ancestry_table) tt
        [GitCall [py "merge-base"; py "v2"; py "v1"];
         GitCall [py "merge-base"; py "--is-ancestor"; py "v2"; py "v1"]]))
  /\
  (order_tags (H := scripted ancestor_table) here
              (Some (py "v1")) (Some (py "v2")) (fresh ancestor_table)
   = (Ok (Some (py "v1"), Some (py "v2")),
      @mkState (scripted ancestor_table) tt
        [GitCall [py "merge-base"; py "v1"; py "v2"];
         GitCall [py "merge-base"; py "--is-ancestor"; py "v1"; py "v2"]]))
  /\
  (order_tags (H := scripted unrelated_table) here
              (Some (py "v2")) (Some (py "v1")) (fresh unrelated_table)
   = (Ok (Some (py "v2"), Some (py "v1")),
      @mkState (scripted unrelated_table) tt
        [GitCall [py "merge-base"; py "v2"; py "v1"]])).
Proof.
  split; [|split].
  - exact (@order_tags_outcome (scripted ancestry_table) here
             (Some (py "v2")) (Some (py "v1")) (fresh ancestry_table)).
  - exact (@order_tags_outcome (scripted ancestor_table) here
             (Some (py "v1")) (Some (py "v2")) (fresh ancestor_table)).
  - exact (@order_tags_outcome (scripted unrelated_table) here
             (Some (py "v2")) (Some (py "v1")) (fresh unrelated_table)).
Defined.

(** C7 as stated fails when the is-ancestor command itself fails: the two
    tags have a common ancestor, the check ends with exit status 128 and a
    fatal error, which is a failure of the command and not its answer, and
    yet the order is not kept: the pair is swapped. *)
Lemma order_tags_swaps_on_failed_check :
  answer failed_check_table [py "merge-base"; py "v1"; py "v2"]
  = Ok (py "abc123")
  /\ answer failed_check_table
       [py "merge-base"; py "--is-ancestor"; py "v1"; py "v2"]
     = Raise (CalledProcessError 128 (py "fatal: unable to read tree"))
  /\ fst (order_tags (H := scripted failed_check_table) here
            (Some (py "v1")) (Some (py "v2")) (fresh failed_check_table))
     = Ok (Some (py "v2"), Some (py "v1"))
  /\ (Some (py "v2"), Some (py "v1")) <> (Some (py "v1"), Some (py "v2")).
Proof. repeat split. discriminate. Qed.

(** ** What a computation leaves in the trace *)

Section QuietFacts.
Context {H : Host}.

Lemma quiet_step_refl s : quiet_step s s.
Proof. exists []. split; [unfold extends; now rewrite app_nil_r|reflexivity]. Qed.

Lemma quiet_step_trans s1 s2 s3 :
  quiet_step s1 s2 -> quiet_step s2 s3 -> quiet_step s1 s3.
Proof.
  intros (a1 & E1 & Q1) (a2 & E2 & Q2). exists (a1 ++ a2). split.
  - unfold extends in *. now rewrite E2, E1, app_assoc.
  - rewrite forallb_app, Q1, Q2. reflexivity.
Qed.

Lemma Quiet_ret (A : Type) (a : A) : Quiet (ret a).
Proof. intros s r s' E. inversion E; subst. apply quiet_step_refl. Qed.

Lemma Quiet_raise (A : Type) (e : exn) : Quiet (raise (A := A) e).
Proof. intros s r s' E. inversion E; subst. apply quiet_step_refl. Qed.

Lemma Quiet_bind (A B : Type) (m : M A) (f : A -> M B) :
  Quiet m -> (forall a, Quiet (f a)) -> Quiet (bind m f).
Proof.
  intros Hm Hf s r s' E. unfold bind in E.
  destruct (m s) as [[a|e] s1] eqn:Em.
  - eapply quiet_step_trans; [eapply Hm; eauto|eapply Hf; eauto].
  - inversion E; subst. eapply Hm; eauto.
Qed.

Lemma Quiet_try_except (A : Type) (m : M A) catches (h : exn -> M A) :
  Quiet m -> (forall e, Quiet (h e)) -> Quiet (try_except m catches h).
Proof.
  intros Hm Hh s r s' E. unfold try_except in E.
  destruct (m s) as [[a|e] s1] eqn:Em.
  - inversion E; subst. eapply Hm; eauto.
  - destruct (catches e).
    + eapply quiet_step_trans; [eapply Hm; eauto|eapply Hh; eauto].
    + inversion E; subst. eapply Hm; eauto.
Qed.

Variable self : ReleaseNotesGenerator.

(** A command other than [git log] leaves no commit-range query behind. *)
Lemma Quiet_run_git_command command allow_failure :
  (forall args, command_line command = Some args ->
                is_log_call (GitCall args) = false) ->
  Quiet (run_git_command self command allow_failure).
Proof.
  intros Hcmd s r s' E.
  pose proof (run_git_command_cases self command allow_failure s) as Hc.
  destruct (command_line command) as [args|].
  - assert (Hq : quiet_step s (mkState (world s') (trace s ++ [GitCall args]))).
    { exists [GitCall args]. split; [reflexivity|].
      cbn [forallb]. unfold quiet_event. rewrite (Hcmd args eq_refl).
      reflexivity. }
    cbn zeta in Hc.
    destruct (subprocess_run (repo_path self) args (world s)) as [[out|e] w];
      rewrite Hc in E; inversion E; subst; exact Hq.
  - rewrite Hc in E. inversion E; subst. apply quiet_step_refl.
Qed.

Lemma Quiet_is_git_repo : Quiet (is_git_repo self).
Proof.
  unfold is_git_repo. apply Quiet_bind.
  - apply Quiet_run_git_command. intros args E. now inversion E.
  - intros r. apply Quiet_ret.
Qed.

Lemma Quiet_get_latest_tags : Quiet (get_latest_tags self).
Proof.
  unfold get_latest_tags. apply Quiet_bind; [apply Quiet_is_git_repo|].
  intros ok. destruct ok; cbn [negb]; [|apply Quiet_raise].
  apply Quiet_bind.
  - apply Quiet_try_except; [|intros; apply Quiet_ret].
    apply Quiet_bind.
    + apply Quiet_run_git_command. intros args E. now inversion E.
    + intros [raw|]; [|apply Quiet_ret].
      destruct (truthy raw); [|apply Quiet_ret].
      destruct (tags_by_date raw); [apply Quiet_ret|apply Quiet_raise].
  - intros [tags|]; [apply Quiet_ret|].
    apply Quiet_try_except; [|intros; apply Quiet_ret].
    apply Quiet_bind; [|intros; apply Quiet_ret].
    apply Quiet_run_git_command. intros args E. now inversion E.
Qed.

(** C9: when the repository yields fewer than two tags,
    generate_release_notes raises the exception for that case ("No tags
    found ..." for none, "Need at least 2 tags ..." for one) in the very
    state the tag listing left: nothing runs after the listing, so the
    listing is not tried again, and the trace has gained no commit-range
    query and no file write. *)
Theorem too_few_tags_is_fatal (start_tag end_tag : option str)
  (output_file : str) (version_title : option str)
  (s s1 s2 : state) (tags : list str)
  (Hrepo : is_git_repo self s = (Ok true, s1))
  (Htags : get_latest_tags self s1 = (Ok tags, s2))
  (Hfew : List.length tags < 2) :
  generate_release_notes self start_tag end_tag output_file version_title s
  = (Raise (if nonempty tags then too_few_tags else no_tags), s2)
  /\ quiet_step s s2.
Proof.
  split.
  - unfold generate_release_notes, bind. rewrite Hrepo. cbn [negb].
    rewrite Htags. destruct tags as [|t [|t' tags]]; cbn in Hfew |- *;
      try reflexivity. lia.
  - eapply quiet_step_trans.
    + eapply Quiet_is_git_repo; eauto.
    + eapply Quiet_get_latest_tags; eauto.
Qed.

End QuietFacts.

Lemma too_few_tags_is_fatal_witness :
  exists s',
    generate_release_notes (H := scripted one_tag_table) here None None
      (py "RELEASE_NOTES.md") None (fresh one_tag_table)
    = (Raise too_few_tags, s')
    /\ quiet_step (fresh one_tag_table) s'.
Proof.
  eexists.
  eapply (@too_few_tags_is_fatal (scripted one_tag_table) here None None
            (py "RELEASE_NOTES.md") None (fresh one_tag_table) _ _
            [py "v1.0.0"]).
  - reflexivity.
  - reflexivity.
  - cbn. lia.
Defined.

(** ** Splitting and stripping *)

Lemma split_char_max_cons sep n a s :
  split_char_max sep (S n) (a :: s)
  = if Ascii.eqb a sep then [] :: split_char_max sep n s
    else match split_char_max sep (S n) s with
         | f :: fs => (a :: f) :: fs
         | [] => [[a]]
         end.
Proof. reflexivity. Qed.

Lemma split_char_max_nonempty sep n s : split_char_max sep n s <> [].
Proof.
  destruct n; [discriminate|]. induction s as [|a s IH]; [discriminate|].
  rewrite split_char_max_cons. destruct (Ascii.eqb a sep); [discriminate|].
  destruct (split_char_max sep (S n) s); [congruence|discriminate].
Qed.

(** The first field is the text before the first separator. *)
Lemma split_char_max_field sep n f rest :
  ~ In sep f ->
  split_char_max sep (S n) (f ++ sep :: rest) = f :: split_char_max sep n rest.
Proof.
  induction f as [|a f IH]; intros Hf; cbn [app]; rewrite split_char_max_cons.
  - now rewrite Ascii.eqb_refl.
  - destruct (Ascii.eqb_spec a sep) as [->|Hne].
    + exfalso. apply Hf. now left.
    + rewrite IH; [reflexivity|]. intros Hin. apply Hf. now right.
Qed.

Lemma split_char_max_length sep n s :
  List.length (split_char_max sep n s) <= S (count_occ ascii_dec s sep).
Proof.
  revert s. induction n as [|n IHn]; intros s; [cbn; lia|].
  induction s as [|a s IHs]; [cbn; lia|].
  rewrite split_char_max_cons. cbn [count_occ].
  destruct (Ascii.eqb_spec a sep) as [->|Hne].
  - destruct (ascii_dec sep sep); [|congruence]. cbn [List.length].
    specialize (IHn s). lia.
  - destruct (ascii_dec a sep); [congruence|].
    destruct (split_char_max sep (S n) s) eqn:E; cbn [List.length] in *; lia.
Qed.

(** A text with a separator splits at the first one. *)
Lemma split_at_first sep s :
  1 <= count_occ ascii_dec s sep ->
  exists f rest,
    s = f ++ sep :: rest /\ ~ In sep f /\
    count_occ ascii_dec rest sep = count_occ ascii_dec s sep - 1.
Proof.
  induction s as [|a s IH]; cbn [count_occ]; [lia|].
  destruct (ascii_dec a sep) as [->|Hne]; intros Hc.
  - exists [], s. repeat split; auto. lia.
  - destruct (IH Hc) as (f & rest & -> & Hf & Hn).
    exists (a :: f), rest. repeat split; auto.
    intros [E|Hin]; [congruence|contradiction].
Qed.

Lemma lstrip_with_keeps p a s :
  In a s -> p a = false -> In a (lstrip_with p s).
Proof.
  intros Hin Ha. induction s as [|x s IH]; [contradiction|].
  cbn [lstrip_with]. destruct (p x) eqn:Hx; [|exact Hin].
  destruct Hin as [->|Hin]; [congruence|auto].
Qed.

Lemma strip_with_keeps p a s :
  In a s -> p a = false -> In a (strip_with p s).
Proof.
  intros Hin Ha. unfold strip_with, rstrip_with.
  apply in_rev. rewrite rev_involutive.
  apply lstrip_with_keeps; auto. apply in_rev. rewrite rev_involutive.
  now apply lstrip_with_keeps.
Qed.

Lemma lstrip_with_subset p (a : ascii) s :
  In a (lstrip_with p s) -> In a s.
Proof.
  induction s as [|x s IH]; [auto|]. cbn [lstrip_with].
  destruct (p x); [right; auto|auto].
Qed.

Lemma strip_with_subset p (a : ascii) s : In a (strip_with p s) -> In a s.
Proof.
  unfold strip_with, rstrip_with. intros Hs.
  apply in_rev, lstrip_with_subset in Hs.
  apply in_rev in Hs. now apply lstrip_with_subset in Hs.
Qed.

Lemma lstrip_with_all p s : forallb p s = true -> lstrip_with p s = [].
Proof.
  induction s as [|a s IH]; [reflexivity|]. cbn [forallb lstrip_with].
  intros Hs. apply andb_prop in Hs as [Ha Hs]. rewrite Ha. auto.
Qed.

(** A line of whitespace is blank. *)
Lemma strip_blank s : forallb is_space s = true -> strip s = [].
Proof.
  intros Hs. unfold strip, strip_with, rstrip_with.
  now rewrite (lstrip_with_all _ _ Hs).
Qed.

(** ** get_commits_between_tags *)

Lemma commits_of_line_blank line :
  forallb is_space line = true -> commits_of_line line = [].
Proof. intros Hs. unfold commits_of_line. now rewrite strip_blank. Qed.

Lemma commits_of_line_few line :
  count_occ ascii_dec line "|"%char < 3 -> commits_of_line line = [].
Proof.
  intros Hc. unfold commits_of_line.
  destruct (truthy (strip line)); [|reflexivity].
  pose proof (split_char_max_length "|"%char 3 line) as Hl.
  destruct (Nat.leb_spec 4 (List.length (split_char_max "|" 3 line)));
    [lia|reflexivity].
Qed.

Lemma commits_of_line_fields h a d subj :
  ~ In "|"%char h -> ~ In "|"%char a -> ~ In "|"%char d ->
  commits_of_line (log_line h a d subj)
  = [Commit.new (slice_to 8 h) subj a d].
Proof.
  intros Hh Ha Hd. unfold commits_of_line, log_line.
  assert (Ht : truthy (strip (h ++ "|"%char :: a ++ "|"%char :: d
                                ++ "|"%char :: subj)) = true).
  { assert (Hin : In "|"%char (strip (h ++ "|"%char :: a ++ "|"%char :: d
                                        ++ "|"%char :: subj))).
    { apply strip_with_keeps; [|reflexivity]. apply in_or_app. right. now left. }
    destruct (strip _); [contradiction|reflexivity]. }
  rewrite Ht.
  rewrite (split_char_max_field "|"%char 2 h _ Hh).
  rewrite (split_char_max_field "|"%char 1 a _ Ha).
  rewrite (split_char_max_field "|"%char 0 d _ Hd).
  reflexivity.
Qed.

Lemma three_pipes_fields line :
  3 <= count_occ ascii_dec line "|"%char ->
  exists h a d subj,
    line = log_line h a d subj /\
    ~ In "|"%char h /\ ~ In "|"%char a /\ ~ In "|"%char d.
Proof.
  intros Hc.
  destruct (@split_at_first "|"%char line) as (h & r1 & -> & Hh & E1); [lia|].
  destruct (@split_at_first "|"%char r1) as (a & r2 & -> & Ha & E2); [lia|].
  destruct (@split_at_first "|"%char r2) as (d & subj & -> & Hd & E3); [lia|].
  exists h, a, d, subj. auto.
Qed.

Lemma new_fields h subj a d :
  hash (Commit.new h subj a d) = h /\ subject (Commit.new h subj a d) = subj
  /\ author (Commit.new h subj a d) = a /\ date (Commit.new h subj a d) = d.
Proof.
  unfold Commit.new. destruct (parse_commit_message subj) as [[t sc] de].
  repeat split.
Qed.

Section LogFacts.
Context {H : Host}.
Variable self : ReleaseNotesGenerator.

(** C10: when the log command succeeds, get_commits_between_tags returns
    what the lines of its stripped output give, line by line.  A line of
    whitespace gives nothing; a line with fewer than three pipes, that is
    fewer than four fields, gives nothing; a line hash|author|date|subject
    gives one commit whose identifier is the first eight characters of the
    hash and whose subject is everything after the third pipe, further
    pipes included; and every line with at least three pipes is such a
    line. *)
Theorem commits_from_log_lines (start_tag end_tag : option str)
  (s : state) (stdout : str) (w : World)
  (Hlog : subprocess_run (repo_path self) (log_args start_tag end_tag) (world s)
          = (Ok stdout, w)) :
  get_commits_between_tags self start_tag end_tag s
  = (Ok (flat_map commits_of_line (split_char "010" (strip stdout))),
     mkState w (trace s ++ [GitCall (log_args start_tag end_tag)]))
  /\ (forall line, forallb is_space line = true -> commits_of_line line = [])
  /\ (forall line, count_occ ascii_dec line "|"%char < 3 ->
                   commits_of_line line = [])
  /\ (forall h a d subj,
        ~ In "|"%char h -> ~ In "|"%char a -> ~ In "|"%char d ->
        exists c,
          commits_of_line (log_line h a d subj) = [c] /\
          hash c = firstn 8 h /\ subject c = subj /\
          author c = a /\ date c = d)
  /\ (forall line, 3 <= count_occ ascii_dec line "|"%char ->
        exists h a d subj,
          line = log_line h a d subj /\
          ~ In "|"%char h /\ ~ In "|"%char a /\ ~ In "|"%char d).
Proof.
  split; [|split; [|split; [|split]]].
  - unfold get_commits_between_tags, bind, ret.
    pose proof (run_git_command_cases self
                  (map Some (log_args start_tag end_tag)) false s) as Hc.
    assert (Hcl : command_line (map Some (log_args start_tag end_tag))
                  = Some (log_args start_tag end_tag)) by reflexivity.
    rewrite Hcl in Hc. cbn zeta in Hc. rewrite Hlog in Hc. rewrite Hc.
    unfold commits_of_log. destruct (strip stdout) eqn:E; reflexivity.
  - apply commits_of_line_blank.
  - apply commits_of_line_few.
  - intros h a d subj Hh Ha Hd. eexists. split.
    + now apply commits_of_line_fields.
    + apply new_fields.
  - apply three_pipes_fields.
Qed.

End LogFacts.

Lemma commits_from_log_lines_witness :
  fst (get_commits_between_tags (H := scripted log_table) here
         (Some (py "v1")) (Some (py "v2")) (fresh log_table))
  = Ok [ Commit.new (py "01234567") (py "feat(x): a|b") (py "Ann")
           (py "Mon Jan 2") ].
Proof.
  rewrite (proj1 (@commits_from_log_lines (scripted log_table) here
                    (Some (py "v1")) (Some (py "v2")) (fresh log_table)
                    _ tt eq_refl)).
  reflexivity.
Defined.

(** ** get_latest_tags *)

Lemma date_ltb_spec a b :
  Datetime.ltb a b = true <->
  Datetime.year a < Datetime.year b \/
  (Datetime.year a = Datetime.year b /\
   (Datetime.month a < Datetime.month b \/
    (Datetime.month a = Datetime.month b /\ Datetime.day a < Datetime.day b))).
Proof.
  unfold Datetime.ltb.
  rewrite !orb_true_iff, !andb_true_iff, !orb_true_iff, !andb_true_iff.
  rewrite !Nat.ltb_lt, !Nat.eqb_eq. reflexivity.
Qed.

Lemma date_ltb_false a b :
  Datetime.ltb a b = false <->
  ~ (Datetime.year a < Datetime.year b \/
     (Datetime.year a = Datetime.year b /\
      (Datetime.month a < Datetime.month b \/
       (Datetime.month a = Datetime.month b /\
        Datetime.day a < Datetime.day b)))).
Proof. rewrite <- date_ltb_spec. symmetry. apply not_true_iff_false. Qed.

Lemma not_before_trans a b c :
  not_before a b -> not_before b c -> not_before a c.
Proof. unfold not_before. rewrite !date_ltb_false. lia. Qed.

Lemma ltb_not_before a b :
  Datetime.ltb (snd a) (snd b) = true -> not_before b a.
Proof. unfold not_before. rewrite date_ltb_false, date_ltb_spec. lia. Qed.

Lemma insert_desc_perm x l : Permutation (insert_desc x l) (x :: l).
Proof.
  induction l as [|y l IH]; cbn [insert_desc]; [reflexivity|].
  destruct (Datetime.ltb (snd x) (snd y)); [|reflexivity].
  rewrite IH. apply perm_swap.
Qed.

(** The sort keeps the pairs. *)
Lemma sort_desc_perm l : Permutation (sort_desc l) l.
Proof.
  induction l as [|x l IH]; [reflexivity|]. unfold sort_desc in *.
  cbn [fold_right]. rewrite insert_desc_perm. now constructor.
Qed.

Lemma insert_desc_sorted x l :
  StronglySorted not_before l -> StronglySorted not_before (insert_desc x l).
Proof.
  induction 1 as [|y l Hs IH Hy]; cbn [insert_desc].
  - repeat constructor.
  - destruct (Datetime.ltb (snd x) (snd y)) eqn:E.
    + constructor; [exact IH|].
      apply (Permutation_Forall (Permutation_sym (insert_desc_perm x l))).
      constructor; [now apply ltb_not_before|exact Hy].
    + constructor; [now constructor|].
      constructor; [exact E|].
      eapply Forall_impl; [|exact Hy]. intros z Hz.
      now apply (not_before_trans (b := y)).
Qed.

(** The sort puts the latest date first. *)
Lemma sort_desc_sorted l : StronglySorted not_before (sort_desc l).
Proof.
  induction l as [|x l IH]; [constructor|]. now apply insert_desc_sorted.
Qed.

Lemma same_date_skips d x y :
  Datetime.ltb (snd x) (snd y) = true -> same_date d x = true ->
  same_date d y = false.
Proof.
  unfold same_date. intros Hxy Hx.
  apply andb_prop in Hx as [H1 H2].
  apply negb_true_iff in H1, H2.
  apply date_ltb_spec in Hxy. apply date_ltb_false in H1, H2.
  destruct (Datetime.ltb (snd y) d) eqn:E1; [reflexivity|].
  destruct (Datetime.ltb d (snd y)) eqn:E2; [reflexivity|]. exfalso.
  apply date_ltb_false in E1, E2. lia.
Qed.

Lemma insert_desc_stable d x l :
  filter (same_date d) (insert_desc x l) = filter (same_date d) (x :: l).
Proof.
  induction l as [|y l IH]; [reflexivity|]. cbn [insert_desc].
  destruct (Datetime.ltb (snd x) (snd y)) eqn:E; [|reflexivity].
  cbn [filter] in *. rewrite IH.
  destruct (same_date d x) eqn:Hx; [|reflexivity].
  now rewrite (same_date_skips d x y E Hx).
Qed.

(** The sort is stable: the pairs of one date keep their order. *)
Lemma sort_desc_stable d l :
  filter (same_date d) (sort_desc l) = filter (same_date d) l.
Proof.
  induction l as [|x l IH]; [reflexivity|]. unfold sort_desc in *.
  cbn [fold_right]. rewrite insert_desc_stable. cbn [filter]. now rewrite IH.
Qed.

(** A line name|date whose date part has a token gives the pair of the
    name and the date of the token, or the minimum date when the token is
    not a date. *)
Lemma tag_of_line_dated line tag date_str tok toks :
  strip_with is_quote line = tag ++ "|"%char :: date_str ->
  ~ In "|"%char tag ->
  split_ws date_str = tok :: toks ->
  tag_of_line line
  = Ok (Some (tag, match Datetime.strptime tok with
                   | Some d => d
                   | None => Datetime.min
                   end)).
Proof.
  intros Hline Htag Htok. unfold tag_of_line.
  assert (Hin : contains_char "|" line = true).
  { unfold contains_char. apply existsb_exists. exists "|"%char.
    split; [|reflexivity].
    apply (strip_with_subset is_quote). rewrite Hline.
    apply in_or_app. right. now left. }
  rewrite Hin, Hline, (split_char_max_field "|"%char 0 tag _ Htag).
  cbn [split_char_max]. rewrite Htok.
  now destruct (Datetime.strptime tok).
Qed.

(** A line name|date whose date part is empty or blank raises IndexError. *)
Lemma tag_of_line_dateless line tag date_str :
  contains_char "|" line = true ->
  strip_with is_quote line = tag ++ "|"%char :: date_str ->
  ~ In "|"%char tag ->
  split_ws date_str = [] ->
  tag_of_line line = Raise IndexError.
Proof.
  intros Hin Hline Htag Htok. unfold tag_of_line.
  rewrite Hin, Hline, (split_char_max_field "|"%char 0 tag _ Htag).
  cbn [split_char_max]. now rewrite Htok.
Qed.

(** When every line of the listing gives a pair, the date branch returns
    the names of the pairs, the latest date first. *)
Lemma tags_of_lines_all lines : forall acc pairs,
  Forall2 (fun line pr => tag_of_line line = Ok (Some pr)) lines pairs ->
  tags_of_lines lines acc = Ok (acc ++ pairs).
Proof.
  induction lines as [|line lines IH]; intros acc pairs Hall;
    inversion Hall; subst; cbn [tags_of_lines].
  - now rewrite app_nil_r.
  - rewrite H1, (IH _ _ H3), <- app_assoc. reflexivity.
Qed.

Lemma tags_by_date_all raw pairs :
  Forall2 (fun line pr => tag_of_line line = Ok (Some pr))
          (split_char "010" raw) pairs ->
  tags_by_date raw = Ok (map fst (sort_desc pairs)).
Proof.
  intros Hall. unfold tags_by_date.
  now rewrite (@tags_of_lines_all _ [] _ Hall).
Qed.

Section TagFacts.
Context {H : Host}.
Variable self : ReleaseNotesGenerator.

(** In a git repository whose dated listing is not empty and raises
    nothing, the tags come back in the order of the date branch. *)
Lemma get_latest_tags_by_date s s1 stdout w tags :
  is_git_repo self s = (Ok true, s1) ->
  subprocess_run (repo_path self) for_each_ref_cmd (world s1) = (Ok stdout, w) ->
  truthy (strip stdout) = true ->
  tags_by_date (strip stdout) = Ok tags ->
  get_latest_tags self s
  = (Ok tags, mkState w (trace s1 ++ [GitCall for_each_ref_cmd])).
Proof.
  intros Hrepo Hrun Hne Htags.
  unfold get_latest_tags, bind, try_except, ret. rewrite Hrepo. cbn [negb].
  pose proof (run_git_command_cases self (map Some for_each_ref_cmd) false s1)
    as Hc.
  cbn [command_line map for_each_ref_cmd] in Hc. cbn zeta in Hc.
  unfold for_each_ref_cmd in Hrun. rewrite Hrun in Hc.
  cbn [map for_each_ref_cmd]. rewrite Hc, Hne, Htags. reflexivity.
Qed.

(** In a git repository the tag listing never raises. *)
Lemma get_latest_tags_returns s s1 :
  is_git_repo self s = (Ok true, s1) ->
  exists tags s2, get_latest_tags self s = (Ok tags, s2).
Proof.
  intros Hrepo. unfold get_latest_tags, bind, try_except, ret, raise.
  rewrite Hrepo. cbn [negb].
  destruct (run_git_command self (map Some for_each_ref_cmd) false s1) as [[raw|e] s2].
  - destruct raw as [raw|]; [destruct (truthy raw)|].
    + destruct (tags_by_date raw); cbn [any_exception]; eauto.
      destruct (run_git_command self _ false s2) as [[raw'|e'] s3];
        cbn [any_exception]; eauto.
    + destruct (run_git_command self _ false s2) as [[raw'|e'] s3];
        cbn [any_exception]; eauto.
    + destruct (run_git_command self _ false s2) as [[raw'|e'] s3];
        cbn [any_exception]; eauto.
  - cbn [any_exception].
    destruct (run_git_command self _ false s2) as [[raw'|e'] s3];
      cbn [any_exception]; eauto.
Qed.

End TagFacts.

(** The ordering example: the latest date first. *)
Example tags_by_date_three :
  tags_by_date three_tags_listing = Ok [py "A"; py "C"; py "B"].
Proof. reflexivity. Qed.

(** A date that is not one sorts as the minimum date. *)
Example tags_by_date_malformed :
  tags_by_date (py "old|2023-02-30 10:00" ++ nl ++ py "new|2023-01-01")
  = Ok [py "new"; py "old"].
Proof. reflexivity. Qed.

(** C5 fails on a tag without a date: the line 'blobtag|' raises
    IndexError, which is not the ValueError the loop handles, so the whole
    date branch is given up and the plain listing is returned in its own
    order, not v1.0.0 first and blobtag last as a minimum date would
    give. *)
Theorem get_latest_tags_dateless_tag :
  tags_by_date (strip dateless_tag_listing) = Raise IndexError
  /\ fst (get_latest_tags (H := scripted dateless_tag_table) here
            (fresh dateless_tag_table))
     = Ok [py "blobtag"; py "v1.0.0"]
  /\ map fst (sort_desc [ (py "v1.0.0", Datetime.mkDate 2023 3 1);
                          (py "blobtag", Datetime.min) ])
     = [py "v1.0.0"; py "blobtag"].
Proof. repeat split. Qed.

(** ** Examples from the test suite and from the library *)

Example parse_feat_auth :
  parse_commit_message (py "feat(auth): add login functionality")
  = (py "feat", py "auth", py "add login functionality").
Proof. reflexivity. Qed.

Example parse_fix_without_scope :
  parse_commit_message (py "fix: resolve issue with authentication")
  = (py "fix", [], py "resolve issue with authentication").
Proof. reflexivity. Qed.

Example parse_plain_message :
  parse_commit_message (py "Update README file")
  = (py "other", [], py "Update README file").
Proof. reflexivity. Qed.

Example parse_scope_with_dash :
  parse_commit_message (py "fix(api-v2): handle special chars")
  = (py "fix", py "api-v2", py "handle special chars").
Proof. reflexivity. Qed.

Example parse_upper_case_type :
  parse_commit_message (py "REFACTOR: code cleanup")
  = (py "refactor", [], py "code cleanup").
Proof. reflexivity. Qed.

Example strptime_short_fields :
  Datetime.strptime (py "2023-1-5") = Some (Datetime.mkDate 2023 1 5).
Proof. reflexivity. Qed.

Example strptime_leap_day :
  Datetime.strptime (py "2024-02-29") = Some (Datetime.mkDate 2024 2 29)
  /\ Datetime.strptime (py "2023-02-29") = None
  /\ Datetime.strptime (py "1900-02-29") = None.
Proof. repeat split. Qed.

Example strptime_rejects :
  Datetime.strptime (py "0000-01-01") = None
  /\ Datetime.strptime (py "2023-12-31x") = None
  /\ Datetime.strptime (py "2023-13-01") = None
  /\ Datetime.strptime (py "2023-01-32") = None
  /\ Datetime.strptime [] = None.
Proof. repeat split. Qed.

Example get_latest_tags_sorted :
  let table :=
    [ (rev_parse_cmd, Ok (py ".git"));
      (for_each_ref_cmd,
       Ok (py "v1.2.0|2023-03-01 10:00:00 +0000" ++ nl
           ++ py "v1.0.0|2023-01-01 10:00:00 +0000" ++ nl
           ++ py "v1.1.0|2023-02-01 10:00:00 +0000")) ] in
  fst (get_latest_tags (H := scripted table) here (fresh table))
  = Ok [py "v1.2.0"; py "v1.1.0"; py "v1.0.0"].
Proof. reflexivity. Qed.

Example get_latest_tags_fallback :
  let table :=
    [ (rev_parse_cmd, Ok (py ".git"));
      (for_each_ref_cmd, Raise (OSError (py "Date command failed")));
      (tag_l_cmd, Ok (py "v1.1.0" ++ nl ++ py "v1.0.0")) ] in
  fst (get_latest_tags (H := scripted table) here (fresh table))
  = Ok [py "v1.1.0"; py "v1.0.0"].
Proof. reflexivity. Qed.

(** * Further properties *)

(** ** The parser on every text *)

(** A text splits into its longest beginning inside a class and the
    rest. *)
Lemma span_class (p : ascii -> bool) (s : str) :
  exists w t, s = w ++ t /\ forallb p w = true /\ stops p t.
Proof.
  induction s as [|a s (w & t & -> & Hw & Ht)].
  - exists [], []. repeat split.
  - destruct (p a) eqn:Ha.
    + exists (a :: w), t. repeat split; auto. cbn. now rewrite Ha.
    + exists [], (a :: w ++ t). repeat split; auto.
Qed.

(** The longest beginning inside a class is unique. *)
Lemma span_unique (p : ascii -> bool) : forall w1 w2 t1 t2,
  w1 ++ t1 = w2 ++ t2 ->
  forallb p w1 = true -> forallb p w2 = true -> stops p t1 -> stops p t2 ->
  w1 = w2 /\ t1 = t2.
Proof.
  induction w1 as [|a w1 IH]; intros [|b w2] t1 t2 E H1 H2 S1 S2;
    cbn [app forallb] in *.
  - auto.
  - subst t1. cbn in S1. apply andb_prop in H2 as [Hb _]. congruence.
  - subst t2. cbn in S2. apply andb_prop in H1 as [Ha _]. congruence.
  - inversion E; subst. apply andb_prop in H1 as [_ H1].
    apply andb_prop in H2 as [_ H2].
    destruct (IH w2 t1 t2 H3 H1 H2 S1 S2) as [-> ->]. auto.
Qed.

(** The pattern from the colon on, when more text follows the line: group
    3 stops at the first line feed. *)
Lemma run_from_colon_tail ws d tail c :
  forallb is_space ws = true -> stops is_space (d ++ tail) ->
  forallb dot d = true -> stops dot tail ->
  run (Seq (lit ":"%char) (Seq (Star is_space) (Group 3 (Star dot))))
      (":"%char :: ws ++ d ++ tail) c (fun s' c' => Some (mkMatch c' s'))
  = Some (mkMatch (set_group 3 d c) tail).
Proof.
  intros Hws Hstop Hd Htail. rewrite run_seq, run_lit_hit, run_seq.
  cbn [run]. apply star_greedy_max; auto.
  apply star_greedy_max; auto.
  now rewrite firstn_consumed.
Qed.

Lemma run_from_scope_tail sc ws d tail c :
  scope_ok sc -> forallb is_space ws = true -> stops is_space (d ++ tail) ->
  forallb dot d = true -> stops dot tail ->
  run (Seq (Opt (NonCap (Seq (lit "("%char)
                        (Seq (Group 2 (Plus not_rparen)) (lit ")"%char)))))
           (Seq (lit ":"%char) (Seq (Star is_space) (Group 3 (Star dot)))))
      (scope_text sc ++ ":"%char :: ws ++ d ++ tail) c
      (fun s' c' => Some (mkMatch c' s'))
  = Some (mkMatch
            (set_group 3 d
               (match sc with Some s => set_group 2 s c | None => c end))
            tail).
Proof.
  intros Hsc Hws Hstop Hd Htail.
  destruct sc as [s|].
  - destruct Hsc as [Hne Hs]. destruct s as [|b s]; [congruence|].
    simpl in Hs. apply andb_prop in Hs as [Hb Hs].
    cbn [scope_text app]. rewrite <- app_assoc. cbn [app].
    rewrite run_seq, run_opt, run_noncap, run_seq, run_lit_hit, run_seq.
    erewrite (run_group_plus (R := match_obj));
      [reflexivity|exact Hb|exact Hs|reflexivity|].
    cbn beta. rewrite run_lit_hit. now apply run_from_colon_tail.
  - cbn [scope_text app].
    rewrite run_seq, run_opt, run_noncap, run_seq, run_lit_miss by reflexivity.
    now apply run_from_colon_tail.
Qed.

(** The parser on a text whose first line is conventional. *)
Lemma parse_shape_tail ty sc ws d tail :
  ty <> [] -> forallb is_word ty = true -> scope_ok sc ->
  forallb is_space ws = true -> stops is_space (d ++ tail) ->
  forallb dot d = true -> stops dot tail ->
  parse_commit_message (ty ++ scope_text sc ++ ":"%char :: ws ++ d ++ tail)
  = (lower ty, scope_value sc, d).
Proof.
  intros Hne Hty Hsc Hws Hstop Hd Htail.
  destruct ty as [|a ty]; [congruence|].
  simpl in Hty. apply andb_prop in Hty as [Ha Hty].
  unfold parse_commit_message, re_match, pattern.
  cbn [app]. rewrite run_seq.
  erewrite (run_group_plus (R := match_obj) 1 is_word a ty);
    [| exact Ha | exact Hty | apply stops_word_scope
     | cbn beta; apply run_from_scope_tail; assumption ].
  unfold group_or_empty. cbn.
  destruct sc as [s|]; cbn; [|reflexivity].
  destruct Hsc as [Hs _]. destruct s; [congruence|reflexivity].
Qed.

(** Whatever follows the colon splits into whitespace, the rest of the
    line and the lines after it. *)
Lemma after_colon_split (tail0 : str) :
  exists ws d tail,
    tail0 = ws ++ d ++ tail /\
    forallb is_space ws = true /\ stops is_space (d ++ tail) /\
    forallb dot d = true /\ stops dot tail.
Proof.
  destruct (span_class is_space tail0) as (ws & t1 & -> & Hws & Hs).
  destruct (span_class dot t1) as (d & tail & -> & Hd & Ht).
  exists ws, d, tail. auto.
Qed.

(** The result on a conventional text, from any way of reading its
    beginning as token, scope and colon. *)
Lemma parse_of_conventional ty sc tail0 :
  ty <> [] -> forallb is_word ty = true -> scope_ok sc ->
  exists ws d tail,
    tail0 = ws ++ d ++ tail /\
    forallb is_space ws = true /\ stops is_space (d ++ tail) /\
    forallb dot d = true /\ stops dot tail /\
    parse_commit_message (ty ++ scope_text sc ++ ":"%char :: tail0)
    = (lower ty, scope_value sc, d).
Proof.
  intros Hne Hty Hsc.
  destruct (after_colon_split tail0) as (ws & d & tail & -> & Hws & Hs & Hd & Ht).
  exists ws, d, tail. repeat split; auto. now apply parse_shape_tail.
Qed.

(** The form with whitespace after the colon is a case of the pattern of
    the parser. *)
Lemma conventional_spaced_conventional message :
  conventional_spaced message -> conventional message.
Proof.
  intros (ty & sc & ws & rest & -> & Hne & Hty & Hsc & _ & _).
  exists ty, sc, (ws ++ rest). auto.
Qed.

(** On a text that matches the pattern the description is a proper part of
    the text, so the result is not the fallback. *)
Lemma parse_conventional_not_fallback message :
  conventional message ->
  parse_commit_message message <> (py "other", [], message).
Proof.
  intros (ty & sc & tail0 & -> & Hne & Hty & Hsc) E.
  destruct (@parse_of_conventional ty sc tail0 Hne Hty Hsc)
    as (ws & d & tail & -> & _ & _ & _ & _ & Hp).
  rewrite Hp in E. injection E as _ _ Ed.
  apply (f_equal (@List.length ascii)) in Ed.
  rewrite !length_app in Ed. cbn [List.length] in Ed.
  rewrite !length_app in Ed. lia.
Qed.

(** C2: the parser is a total function of the subject line: every text,
    the empty one included, has a triple as its result, the same one each
    time.  A line that does not match the pattern of the parser (a word
    token, an optional non-empty scope between parentheses and a colon;
    whitespace after the colon is not asked for) gives the category
    "other", an empty scope and the whole line as its description; a line
    that does match it never gives that result. *)
Theorem parse_total_with_fallback (message : str) :
  (exists ty sc d, parse_commit_message message = (ty, sc, d)) /\
  (forall t1 t2, parse_commit_message message = t1 ->
                 parse_commit_message message = t2 -> t1 = t2) /\
  (~ conventional message ->
   parse_commit_message message = (py "other", [], message)) /\
  (conventional message ->
   parse_commit_message message <> (py "other", [], message)).
Proof.
  split; [|split; [|split]].
  - destruct (parse_commit_message message) as [[ty sc] d]. eauto.
  - congruence.
  - intros Hno. apply parse_unmatched.
    destruct (re_match pattern message) eqn:E; [|reflexivity].
    exfalso. apply Hno, conventional_iff_match. eauto.
  - apply parse_conventional_not_fallback.
Qed.

Lemma parse_total_with_fallback_witness :
  parse_commit_message [] = (py "other", [], [])
  /\ parse_commit_message (py "Update README file")
     = (py "other", [], py "Update README file")
  /\ parse_commit_message (py "docs:readme")
     <> (py "other", [], py "docs:readme").
Proof.
  split; [|split].
  - apply (proj1 (proj2 (proj2 (parse_total_with_fallback [])))).
    apply not_conventional_by_match. reflexivity.
  - apply (proj1 (proj2 (proj2
             (parse_total_with_fallback (py "Update README file"))))).
    apply not_conventional_by_match. reflexivity.
  - apply (proj2 (proj2 (proj2 (parse_total_with_fallback (py "docs:readme"))))).
    exists (py "docs"), None, (py "readme"). repeat split; discriminate.
Defined.

(** C2 as stated fails on "docs:readme".  The line is not of the
    conventional form, a word token, an optional scope, a colon, whitespace
    and the rest: no whitespace follows its colon.  Yet the result is not
    the fallback: the line is parsed as a commit of type docs. *)
Lemma parse_docs_readme_not_fallback :
  ~ conventional_spaced (py "docs:readme")
  /\ parse_commit_message (py "docs:readme") = (py "docs", [], py "readme")
  /\ parse_commit_message (py "docs:readme")
     <> (py "other", [], py "docs:readme").
Proof.
  split; [|split; [reflexivity|discriminate]].
  intros (ty & sc & ws & rest & E & Hne & Hty & Hsc & Hws & Hsp).
  destruct (@span_unique is_word (py "docs") ty (py ":readme")
              (scope_text sc ++ ":"%char :: ws ++ rest))
    as [<- E2].
  - exact E.
  - reflexivity.
  - exact Hty.
  - reflexivity.
  - destruct sc; reflexivity.
  - destruct sc as [s|]; [discriminate|].
    destruct ws as [|a ws]; [congruence|].
    cbn in E2. injection E2 as Ea _. subst a. discriminate.
Qed.

(** The two cases of the parser: the fallback, or the first line read as
    token, scope, colon, whitespace and description. *)
Lemma parse_commit_message_cases_aux (message : str) :
  (~ conventional message /\
   parse_commit_message message = (py "other", [], message))
  \/
  (exists ty sc ws d tail,
     message = ty ++ scope_text sc ++ ":"%char :: ws ++ d ++ tail /\
     ty <> [] /\ forallb is_word ty = true /\ scope_ok sc /\
     forallb is_space ws = true /\ stops is_space (d ++ tail) /\
     forallb dot d = true /\ stops dot tail /\
     parse_commit_message message = (lower ty, scope_value sc, d)).
Proof.
  destruct (re_match pattern message) as [m|] eqn:E.
  - right.
    destruct (proj2 (conventional_iff_match message) (ex_intro _ m E))
      as (ty & sc & tail0 & -> & Hne & Hty & Hsc).
    destruct (@parse_of_conventional ty sc tail0 Hne Hty Hsc)
      as (ws & d & tail & -> & Hws & Hs & Hd & Ht & Hp).
    exists ty, sc, ws, d, tail. repeat split; auto.
  - left. split; [now apply not_conventional_by_match|now apply parse_unmatched].
Qed.

(** X1: the parser on every text.  Either the text is not conventional and
    the result is ("other", "", the whole text); or the text is a word
    token, an optional scope, a colon, the longest run of whitespace, the
    longest run of characters other than a line feed, and whatever follows,
    and the result is (the token in lower case, the scope, that run): the
    description ends at the first line feed of a text of several lines. *)
Theorem parse_commit_message_cases (message : str) :
  (~ conventional message /\
   parse_commit_message message = (py "other", [], message))
  \/
  (exists ty sc ws d tail,
     message = ty ++ scope_text sc ++ ":"%char :: ws ++ d ++ tail /\
     ty <> [] /\ forallb is_word ty = true /\ scope_ok sc /\
     forallb is_space ws = true /\ stops is_space (d ++ tail) /\
     forallb dot d = true /\ stops dot tail /\
     parse_commit_message message = (lower ty, scope_value sc, d)).
Proof. apply parse_commit_message_cases_aux. Qed.

Example parse_two_lines :
  parse_commit_message (py "fix(api):   first line" ++ nl ++ py "second line")
  = (py "fix", py "api", py "first line").
Proof. reflexivity. Qed.

Lemma lower_char_idempotent a : lower_char (lower_char a) = lower_char a.
Proof. destruct a as [[] [] [] [] [] [] [] []]; reflexivity. Qed.

Lemma lower_idempotent s : lower (lower s) = lower s.
Proof.
  unfold lower. rewrite map_map. apply map_ext. apply lower_char_idempotent.
Qed.

Lemma forallb_not_in (p : ascii -> bool) (a : ascii) s :
  p a = false -> forallb p s = true -> ~ In a s.
Proof.
  intros Ha Hs Hin. rewrite forallb_forall in Hs. apply Hs in Hin. congruence.
Qed.

Lemma stops_app_l (p : ascii -> bool) d tail : stops p (d ++ tail) -> stops p d \/ d = [].
Proof. destruct d; [now right|now left]. Qed.

(** X2: what the parser returns for a conventional text: a category that
    is not empty and is in lower case (lowering it again changes nothing),
    a scope without a closing parenthesis, and a description without a line
    feed that does not begin with whitespace. *)
Theorem parse_result_shape (message t sc d : str)
  (Hconv : conventional message)
  (Hparse : parse_commit_message message = (t, sc, d)) :
  t <> [] /\ lower t = t /\
  ~ In ")"%char sc /\
  ~ In "010"%char d /\ stops is_space d.
Proof.
  destruct Hconv as (ty & sc0 & tail0 & -> & Hne & Hty & Hsc).
  destruct (@parse_of_conventional ty sc0 tail0 Hne Hty Hsc)
    as (ws & d0 & tail & -> & Hws & Hs & Hd & Ht & Hp).
  rewrite Hp in Hparse. inversion Hparse; subst. repeat split.
  - destruct ty; [congruence|discriminate].
  - apply lower_idempotent.
  - destruct sc0 as [s|]; cbn; [|auto].
    destruct Hsc as [_ Hs']. now apply (forallb_not_in not_rparen).
  - now apply (forallb_not_in dot).
  - destruct d; [exact I|exact Hs].
Qed.

Lemma parse_result_shape_witness :
  py "fix" <> [] /\ lower (py "fix") = py "fix"
  /\ ~ In ")"%char (py "api")
  /\ ~ In "010"%char (py "first line") /\ stops is_space (py "first line").
Proof.
  apply (@parse_result_shape
           (py "FIX(api):   first line" ++ nl ++ py "second line")
           (py "fix") (py "api") (py "first line")).
  - exists (py "FIX"), (Some (py "api")),
      (py "   first line" ++ nl ++ py "second line").
    repeat split; discriminate.
  - reflexivity.
Defined.

(** X3: the case of the type does not matter.  Two texts that differ only
    in the case of their leading word are conventional together, and then
    their results are the same. *)
Theorem parse_type_case_insensitive (ty ty' tail : str)
  (Hty : forallb is_word ty = true) (Hty' : forallb is_word ty' = true)
  (Hcase : lower ty = lower ty') (Htail : stops is_word tail) :
  (conventional (ty ++ tail) <-> conventional (ty' ++ tail)) /\
  (conventional (ty ++ tail) ->
   parse_commit_message (ty ++ tail) = parse_commit_message (ty' ++ tail)).
Proof.
  assert (Hone : forall a b, forallb is_word a = true -> forallb is_word b = true ->
                             lower a = lower b ->
                             conventional (a ++ tail) ->
                             conventional (b ++ tail) /\
                             parse_commit_message (a ++ tail)
                             = parse_commit_message (b ++ tail)).
  { intros a b Ha Hb Hab (ty2 & sc & tail0 & E & Hne & Hw & Hsc).
    destruct (span_unique is_word a ty2 tail _ E Ha Hw Htail
                (stops_word_scope sc tail0)) as [-> ->].
    assert (Hbne : b <> []).
    { intros ->. destruct ty2; [congruence|discriminate]. }
    split.
    - exists b, sc, tail0. auto.
    - destruct (@parse_of_conventional ty2 sc tail0 Hne Hw Hsc)
        as (ws & d & tl & -> & Hws & Hs & Hd & Ht & Hp).
      rewrite Hp, (@parse_shape_tail b sc ws d tl Hbne Hb Hsc Hws Hs Hd Ht).
      now rewrite Hab. }
  split; [split|].
  - intros Hc. now apply (Hone ty ty').
  - intros Hc. now apply (Hone ty' ty).
  - intros Hc. now apply (Hone ty ty').
Qed.

Lemma parse_type_case_insensitive_witness :
  parse_commit_message (py "FEAT(ui): add a button")
  = parse_commit_message (py "feat(ui): add a button").
Proof.
  apply (@parse_type_case_insensitive (py "FEAT") (py "feat")
           (py "(ui): add a button")); try reflexivity.
  exists (py "FEAT"), (Some (py "ui")), (py " add a button").
  repeat split; discriminate.
Defined.

(** ** From a subject to a category *)

Lemma new_type h subj a d :
  type (Commit.new h subj a d) = fst (fst (parse_commit_message subj)).
Proof.
  unfold Commit.new. now destruct (parse_commit_message subj) as [[t sc] de].
Qed.

(** X4: the category of a commit, from its subject.  A commit whose subject
    is not conventional is filed under "other"; a commit whose subject
    begins with a word token, an optional scope and a colon is filed under
    the token in lower case when the table has it and under "other" when
    it does not. *)
Theorem commit_category (h subj a d : str) :
  (~ conventional subj ->
   category_key (Commit.new h subj a d) = py "other") /\
  (forall ty sc tail,
     subj = ty ++ scope_text sc ++ ":"%char :: tail ->
     ty <> [] -> forallb is_word ty = true -> scope_ok sc ->
     category_key (Commit.new h subj a d)
     = if Dict.mem (lower ty) COMMIT_TYPES then lower ty else py "other").
Proof.
  unfold category_key. rewrite new_type. split.
  - intros Hno.
    destruct (parse_commit_message_cases_aux subj) as [[_ ->]|Hc];
      [reflexivity|].
    exfalso. apply Hno.
    destruct Hc as (ty & sc & ws & d0 & tail & -> & Hne & Hty & Hsc & _).
    exists ty, sc, (ws ++ d0 ++ tail). auto.
  - intros ty sc tail -> Hne Hty Hsc.
    destruct (@parse_of_conventional ty sc tail Hne Hty Hsc)
      as (ws & d0 & tl & _ & _ & _ & _ & _ & ->).
    reflexivity.
Qed.

Lemma commit_category_witness :
  category_key (Commit.new (py "abc") (py "Docs(readme): typo") (py "A") (py "d"))
  = py "docs"
  /\ category_key (Commit.new (py "abc") (py "wip: typo") (py "A") (py "d"))
     = py "other"
  /\ category_key (Commit.new (py "abc") (py "Update README") (py "A") (py "d"))
     = py "other".
Proof.
  split; [|split].
  - apply (proj2 (commit_category (py "abc") (py "Docs(readme): typo")
                    (py "A") (py "d"))
             (py "Docs") (Some (py "readme")) (py " typo")).
    + reflexivity.
    + discriminate.
    + reflexivity.
    + split; [discriminate|reflexivity].
  - apply (proj2 (commit_category (py "abc") (py "wip: typo") (py "A") (py "d"))
             (py "wip") None (py " typo")).
    + reflexivity.
    + discriminate.
    + reflexivity.
    + exact I.
  - apply (proj1 (commit_category (py "abc") (py "Update README")
                    (py "A") (py "d"))).
    apply not_conventional_by_match. reflexivity.
Defined.

(** ** The keys of the grouping and the lookup *)

Lemma Ok_inj (A : Type) (a b : A) : Ok a = Ok b -> a = b.
Proof. intros E. now inversion E. Qed.

Lemma nonempty_filter_existsb (X : Type) (f : X -> bool) l :
  nonempty (filter f l) = existsb f l.
Proof.
  induction l as [|x l IH]; [reflexivity|]. cbn [filter existsb].
  destruct (f x); [reflexivity|exact IH].
Qed.

Lemma keys_of_filtered (commits : list GitCommit) (K : list str) :
  Dict.keys (filter (fun kv : str * list GitCommit => nonempty (snd kv))
               (map (fun k => (k, filed_under k commits)) K))
  = filter (fun k => has_commit k commits) K.
Proof.
  induction K as [|k K IH]; [reflexivity|]. cbn [map filter snd].
  unfold has_commit at 1. rewrite <- nonempty_filter_existsb.
  fold (filed_under k commits).
  destruct (nonempty (filed_under k commits)); cbn [Dict.keys map fst];
    [f_equal|]; exact IH.
Qed.

Lemma has_commit_perm k commits commits' :
  Permutation commits commits' -> has_commit k commits = has_commit k commits'.
Proof.
  intros Hp. unfold has_commit.
  destruct (existsb _ commits') eqn:E'.
  - apply existsb_exists in E' as (c & Hin & Hc). apply existsb_exists.
    exists c. split; auto. now apply (Permutation_in _ (Permutation_sym Hp)).
  - destruct (existsb _ commits) eqn:E; [|reflexivity].
    apply existsb_exists in E as (c & Hin & Hc).
    assert (existsb (fun c => PyStr.eqb (category_key c) k) commits' = true).
    { apply existsb_exists. exists c. split; auto.
      now apply (Permutation_in _ Hp). }
    congruence.
Qed.

(** X5: the keys of the grouping come in the order of the table, not in
    the order of the commits: they are the keys of the table under which
    some commit is filed; so two lists with the same commits in different
    orders give the same keys in the same order. *)
Theorem categorize_commits_key_order (commits commits' : list GitCommit)
  (d d' : Dict.dict (list GitCommit))
  (Hd : categorize_commits commits = Ok d)
  (Hd' : categorize_commits commits' = Ok d')
  (Hperm : Permutation commits commits') :
  Dict.keys d
  = filter (fun k => has_commit k commits) (Dict.keys COMMIT_TYPES)
  /\ Dict.keys d = Dict.keys d'.
Proof.
  rewrite categorize_commits_eq in Hd, Hd'.
  apply Ok_inj in Hd. apply Ok_inj in Hd'. subst d d'.
  unfold all_categories. rewrite !keys_of_filtered. split; [reflexivity|].
  apply filter_ext. intros k. now apply has_commit_perm.
Qed.

Lemma categorize_commits_key_order_witness :
  let c1 := Commit.new (py "1") (py "fix: a") (py "A") (py "d") in
  let c2 := Commit.new (py "2") (py "feat: b") (py "B") (py "d") in
  let d := [(py "feat", [c2]); (py "fix", [c1])] in
  Dict.keys d = [py "feat"; py "fix"] /\ Dict.keys d = Dict.keys d.
Proof.
  intros c1 c2 d.
  destruct (@categorize_commits_key_order [c1; c2] [c2; c1] d d)
    as [Hk Hsame].
  - reflexivity.
  - reflexivity.
  - apply perm_swap.
  - split; [exact Hk|exact Hsame].
Defined.

Lemma get_In (V : Type) k (v : V) (d : Dict.dict V) :
  NoDup (Dict.keys d) -> In (k, v) d -> Dict.get k d = Some v.
Proof.
  induction d as [|[k' v'] d IH]; intros Hnd Hin; [contradiction|].
  inversion Hnd as [|? ? Hnotin Hnd']; subst. cbn [Dict.get].
  destruct Hin as [E|Hin].
  - inversion E; subst. now rewrite str_eqb_refl.
  - destruct (PyStr.eqb k' k) eqn:E; [|auto].
    apply str_eqb_eq in E; subst k'. exfalso. apply Hnotin.
    apply in_map_iff. now exists (k, v).
Qed.

Lemma get_not_key (V : Type) k (d : Dict.dict V) :
  ~ In k (Dict.keys d) -> Dict.get k d = None.
Proof.
  induction d as [|[k' v'] d IH]; intros Hno; [reflexivity|].
  cbn [Dict.get]. destruct (PyStr.eqb k' k) eqn:E.
  - apply str_eqb_eq in E; subst k'. exfalso. apply Hno. now left.
  - apply IH. intros Hin. apply Hno. now right.
Qed.

Lemma has_commit_in_table k commits :
  has_commit k commits = true -> In k (Dict.keys COMMIT_TYPES).
Proof.
  unfold has_commit. intros E. apply existsb_exists in E as (c & _ & Hc).
  apply str_eqb_eq in Hc. subst k. apply category_key_in.
Qed.

Lemma NoDup_filter (X : Type) (f : X -> bool) l : NoDup l -> NoDup (filter f l).
Proof.
  induction 1 as [|x l Hx Hnd IH]; cbn [filter]; [constructor|].
  destruct (f x); [|exact IH]. constructor; [|exact IH].
  intros Hin. apply filter_In in Hin. now apply Hx.
Qed.

(** X6: looking a key up in the grouping.  The list bound to a key is the
    list of the input commits filed under it, in the order of the input,
    when there is such a commit; a key without a commit, in the table or
    not, is absent. *)
Theorem categorize_commits_lookup (commits : list GitCommit)
  (d : Dict.dict (list GitCommit)) (k : str)
  (Hd : categorize_commits commits = Ok d) :
  Dict.get k d
  = if has_commit k commits then Some (filed_under k commits) else None.
Proof.
  rewrite categorize_commits_eq in Hd. apply Ok_inj in Hd. subst d.
  assert (Hkeys := keys_of_filtered commits (Dict.keys COMMIT_TYPES)).
  fold (all_categories commits) in Hkeys.
  destruct (has_commit k commits) eqn:E.
  - apply get_In.
    + rewrite Hkeys. apply NoDup_filter, keys_COMMIT_TYPES_NoDup.
    + apply filter_In. split.
      * apply in_all_categories.
        split; [exact (@has_commit_in_table k commits E)|reflexivity].
      * cbn [snd]. unfold filed_under. rewrite nonempty_filter_existsb. exact E.
  - apply get_not_key. rewrite Hkeys. intros Hin.
    apply filter_In in Hin as [_ Hin]. congruence.
Qed.

Lemma categorize_commits_lookup_witness :
  let c1 := Commit.new (py "1") (py "fix: a") (py "A") (py "d") in
  let c2 := Commit.new (py "2") (py "feat: b") (py "B") (py "d") in
  let c3 := Commit.new (py "3") (py "FIX(x): c") (py "A") (py "d") in
  let d := [(py "feat", [c2]); (py "fix", [c1; c3])] in
  Dict.get (py "fix") d = Some [c1; c3] /\ Dict.get (py "docs") d = None.
Proof.
  intros c1 c2 c3 d. split.
  - rewrite (@categorize_commits_lookup [c1; c2; c3] d (py "fix") eq_refl).
    reflexivity.
  - rewrite (@categorize_commits_lookup [c1; c2; c3] d (py "docs") eq_refl).
    reflexivity.
Defined.

(** ** The commits of a log *)

Lemma split_char_cons sep a s :
  split_char sep (a :: s)
  = if Ascii.eqb a sep then [] :: split_char sep s
    else match split_char sep s with
         | f :: fs => (a :: f) :: fs
         | [] => [[a]]
         end.
Proof. reflexivity. Qed.

Lemma split_char_nonempty sep s : split_char sep s <> [].
Proof.
  induction s as [|a s IH]; [discriminate|]. rewrite split_char_cons.
  destruct (Ascii.eqb a sep); [discriminate|].
  destruct (split_char sep s); [congruence|discriminate].
Qed.

(** No field holds the separator. *)
Lemma split_char_no_sep sep s f : In f (split_char sep s) -> ~ In sep f.
Proof.
  revert f. induction s as [|a s IH]; intros f Hin.
  - destruct Hin as [<-|[]]. auto.
  - rewrite split_char_cons in Hin.
    destruct (Ascii.eqb_spec a sep) as [->|Hne].
    + destruct Hin as [<-|Hin]; auto.
    + destruct (split_char sep s) as [|f0 fs] eqn:E.
      * now apply split_char_nonempty in E.
      * destruct Hin as [<-|Hin].
        -- intros [Ha|Hin]; [congruence|]. revert Hin. apply IH. now left.
        -- apply IH. now right.
Qed.

(** The fields of two texts joined by the separator are the fields of the
    first followed by the fields of the second. *)
Lemma split_char_app sep a b :
  split_char sep (a ++ sep :: b) = split_char sep a ++ split_char sep b.
Proof.
  induction a as [|x a IH]; cbn [app].
  - rewrite split_char_cons, Ascii.eqb_refl. reflexivity.
  - rewrite !split_char_cons. destruct (Ascii.eqb x sep).
    + now rewrite IH.
    + rewrite IH. destruct (split_char sep a) as [|f fs] eqn:E.
      * now apply split_char_nonempty in E.
      * reflexivity.
Qed.

Lemma in_firstn (X : Type) (x : X) n l : In x (firstn n l) -> In x l.
Proof.
  revert l. induction n as [|n IH]; intros l Hin.
  - destruct l; contradiction.
  - destruct l as [|y l]; [contradiction|]. cbn [firstn] in Hin.
    destruct Hin as [->|Hin]; [now left|right; auto].
Qed.

(** What a line that gives a commit looks like. *)
Lemma commits_of_line_In line c :
  In c (commits_of_line line) ->
  exists h a d subj,
    line = log_line h a d subj /\
    ~ In "|"%char h /\ ~ In "|"%char a /\ ~ In "|"%char d /\
    c = Commit.new (slice_to 8 h) subj a d.
Proof.
  intros Hin.
  destruct (Nat.lt_ge_cases (count_occ ascii_dec line "|"%char) 3) as [Hlt|Hge].
  - rewrite (commits_of_line_few line Hlt) in Hin. contradiction.
  - destruct (three_pipes_fields line Hge) as (h & a & d & subj & -> & Hh & Ha & Hd).
    rewrite (@commits_of_line_fields h a d subj Hh Ha Hd) in Hin.
    destruct Hin as [<-|[]]. exists h, a, d, subj. auto.
Qed.

Lemma new_parsed h subj a d :
  (type (Commit.new h subj a d), scope (Commit.new h subj a d),
   description (Commit.new h subj a d))
  = parse_commit_message subj.
Proof.
  unfold Commit.new. now destruct (parse_commit_message subj) as [[t sc] de].
Qed.

(** X7: what every commit read from a log satisfies.  Its identifier has at
    most eight characters; identifier, author and date hold no pipe; no
    field holds a line feed; and its type, scope and description are the
    parse of its subject. *)
Theorem commits_of_log_invariant (raw_commits : str) (c : GitCommit)
  (Hin : In c (commits_of_log raw_commits)) :
  List.length (hash c) <= 8 /\
  (~ In "|"%char (hash c) /\ ~ In "|"%char (author c) /\ ~ In "|"%char (date c)) /\
  (~ In "010"%char (hash c) /\ ~ In "010"%char (author c) /\
   ~ In "010"%char (date c) /\ ~ In "010"%char (subject c)) /\
  (type c, scope c, description c) = parse_commit_message (subject c).
Proof.
  unfold commits_of_log in Hin. apply in_flat_map in Hin as (line & Hline & Hc).
  apply split_char_no_sep in Hline.
  apply commits_of_line_In in Hc as (h & a & d & subj & -> & Hh & Ha & Hd & ->).
  destruct (new_fields (slice_to 8 h) subj a d) as (Eh & Es & Ea & Ed).
  rewrite new_parsed, Eh, Es, Ea, Ed. unfold slice_to, log_line in *.
  assert (Hnl : ~ In "010"%char h /\ ~ In "010"%char a /\
                ~ In "010"%char d /\ ~ In "010"%char subj).
  { repeat split; intros Hx; apply Hline;
      repeat (apply in_or_app; cbn [In]; auto; right; right). }
  destruct Hnl as (Nh & Na & Nd & Ns).
  repeat split; auto.
  - rewrite length_firstn. lia.
  - intros Hx. apply Hh. now apply in_firstn in Hx.
  - intros Hx. apply Nh. now apply in_firstn in Hx.
Qed.

Lemma commits_of_log_invariant_witness :
  let c := Commit.new (py "01234567") (py "feat(x): a|b") (py "Ann")
             (py "Mon Jan 2") in
  List.length (hash c) <= 8 /\
  (~ In "|"%char (hash c) /\ ~ In "|"%char (author c) /\ ~ In "|"%char (date c)) /\
  (~ In "010"%char (hash c) /\ ~ In "010"%char (author c) /\
   ~ In "010"%char (date c) /\ ~ In "010"%char (subject c)) /\
  (type c, scope c, description c) = parse_commit_message (subject c).
Proof.
  intros c.
  apply (@commits_of_log_invariant
           (py "0123456789abcdef|Ann|Mon Jan 2|feat(x): a|b" ++ nl
            ++ py "deadbeef|Bob|no subject") c).
  left. reflexivity.
Defined.

Lemma commits_of_line_length line :
  List.length (commits_of_line line) = if has_four_fields line then 1 else 0.
Proof.
  unfold has_four_fields.
  destruct (Nat.leb_spec 3 (count_occ ascii_dec line "|"%char)) as [Hge|Hlt].
  - destruct (three_pipes_fields line Hge) as (h & a & d & subj & -> & Hh & Ha & Hd).
    now rewrite (@commits_of_line_fields h a d subj Hh Ha Hd).
  - now rewrite (commits_of_line_few line Hlt).
Qed.

(** X8: the log is read line by line.  Two logs joined by a line feed give
    the commits of the first followed by the commits of the second, and a
    log gives as many commits as it has lines with at least three pipes. *)
Theorem commits_of_log_by_line (a b raw_commits : str) :
  commits_of_log (a ++ nl ++ b) = commits_of_log a ++ commits_of_log b
  /\ List.length (commits_of_log raw_commits)
     = List.length (filter has_four_fields (split_char "010" raw_commits)).
Proof.
  split.
  - unfold commits_of_log, nl. cbn [app].
    now rewrite split_char_app, flat_map_app.
  - unfold commits_of_log.
    induction (split_char "010" raw_commits) as [|line lines IH];
      [reflexivity|].
    cbn [flat_map filter]. rewrite length_app, commits_of_line_length, IH.
    now destruct (has_four_fields line).
Qed.

(** ** The lines of a tag listing *)

Lemma contains_char_In a s : contains_char a s = true <-> In a s.
Proof.
  unfold contains_char. rewrite existsb_exists. split.
  - intros (x & Hin & E). apply Ascii.eqb_eq in E. now subst.
  - intros Hin. exists a. split; [exact Hin|apply Ascii.eqb_refl].
Qed.

(** A line with a pipe, once its quotes are stripped, is a name without a
    pipe, a pipe, and a date part. *)
Lemma tag_line_split line :
  contains_char "|" line = true ->
  exists tag date_str,
    strip_with is_quote line = tag ++ "|"%char :: date_str /\
    ~ In "|"%char tag.
Proof.
  intros Hc. apply contains_char_In in Hc.
  assert (Hin : In "|"%char (strip_with is_quote line))
    by now apply strip_with_keeps.
  apply (count_occ_In ascii_dec) in Hin.
  destruct (@split_at_first "|"%char (strip_with is_quote line))
    as (tag & date_str & E & Htag & _); [lia|]. eauto.
Qed.

Lemma tag_of_line_cases_aux line :
  (contains_char "|" line = false /\ tag_of_line line = Ok None)
  \/
  (exists tag date_str,
     contains_char "|" line = true /\
     strip_with is_quote line = tag ++ "|"%char :: date_str /\
     ~ In "|"%char tag /\
     ((split_ws date_str = [] /\ tag_of_line line = Raise IndexError)
      \/
      (exists tok toks,
         split_ws date_str = tok :: toks /\
         tag_of_line line = Ok (Some (tag, date_or_min tok))))).
Proof.
  destruct (contains_char "|" line) eqn:Hc.
  - right. destruct (tag_line_split line Hc) as (tag & date_str & E & Htag).
    exists tag, date_str. repeat split; auto.
    destruct (split_ws date_str) as [|tok toks] eqn:Ew.
    + left. split; [reflexivity|].
      exact (@tag_of_line_dateless line tag date_str Hc E Htag Ew).
    + right. exists tok, toks. split; [reflexivity|].
      exact (@tag_of_line_dated line tag date_str tok toks E Htag Ew).
  - left. split; [reflexivity|]. unfold tag_of_line. now rewrite Hc.
Qed.

Lemma tags_of_lines_raise lines : forall acc e,
  tags_of_lines lines acc = Raise e -> e = IndexError.
Proof.
  induction lines as [|line lines IH]; intros acc e; cbn [tags_of_lines];
    [discriminate|].
  destruct (tag_of_line_cases_aux line)
    as [[_ ->]|(tag & ds & _ & _ & _ & [[_ ->]|(tok & toks & _ & ->)])].
  - apply IH.
  - intros E. now inversion E.
  - apply IH.
Qed.

(** X9: a line of the tag listing, case by case.  A line without a pipe is
    skipped.  A line with one is cut at its first pipe, after the quotes at
    its ends are stripped: a date part that is empty or blank raises
    IndexError; otherwise the line gives the name with the date of the
    first token, or with the minimum date when that token is not a date.
    So the only exception the date branch can end with is IndexError: the
    unpacking of the two fields never fails. *)
Theorem tag_of_line_cases (line raw_tags : str) :
  ((contains_char "|" line = false /\ tag_of_line line = Ok None)
   \/
   (exists tag date_str,
      contains_char "|" line = true /\
      strip_with is_quote line = tag ++ "|"%char :: date_str /\
      ~ In "|"%char tag /\
      ((split_ws date_str = [] /\ tag_of_line line = Raise IndexError)
       \/
       (exists tok toks,
          split_ws date_str = tok :: toks /\
          tag_of_line line = Ok (Some (tag, date_or_min tok))))))
  /\ (forall e, tags_by_date raw_tags = Raise e -> e = IndexError).
Proof.
  split; [apply tag_of_line_cases_aux|].
  intros e. unfold tags_by_date.
  destruct (tags_of_lines (split_char "010" raw_tags) []) eqn:E;
    [discriminate|].
  intros E'. inversion E'; subst. now apply tags_of_lines_raise in E.
Qed.

Lemma tags_of_lines_pairs lines : forall acc res,
  tags_of_lines lines acc = Ok res -> res = acc ++ dated_pairs lines.
Proof.
  induction lines as [|line lines IH]; intros acc res; cbn [tags_of_lines].
  - intros E. inversion E. unfold dated_pairs. cbn. now rewrite app_nil_r.
  - unfold dated_pairs. cbn [flat_map]. fold (dated_pairs lines).
    destruct (tag_of_line line) as [[pr|]|e]; [| |discriminate]; intros E.
    + rewrite (IH _ _ E), <- app_assoc. reflexivity.
    + now rewrite (IH _ _ E).
Qed.

(** X10: the order of the date branch.  When it succeeds, the names it
    returns are those of the pairs its lines give, each once, arranged so
    that no name comes before a name of a later date, and names of the same
    date keep the order of the listing. *)
Theorem tags_by_date_order (raw_tags : str) (tags : list str)
  (Hok : tags_by_date raw_tags = Ok tags) :
  exists pairs,
    tags = map fst pairs /\
    Permutation pairs (dated_pairs (split_char "010" raw_tags)) /\
    StronglySorted not_before pairs /\
    (forall d, filter (same_date d) pairs
               = filter (same_date d) (dated_pairs (split_char "010" raw_tags))).
Proof.
  unfold tags_by_date in Hok.
  destruct (tags_of_lines (split_char "010" raw_tags) []) as [twd|e] eqn:E;
    [|discriminate].
  inversion Hok; subst. apply tags_of_lines_pairs in E. cbn [app] in E. subst twd.
  exists (sort_desc (dated_pairs (split_char "010" raw_tags))).
  repeat split.
  - apply sort_desc_perm.
  - apply sort_desc_sorted.
  - intros d. apply sort_desc_stable.
Qed.

Lemma tags_by_date_order_witness :
  exists pairs,
    [py "A"; py "C"; py "B"] = map fst pairs /\
    Permutation pairs (dated_pairs (split_char "010" three_tags_listing)) /\
    StronglySorted not_before pairs /\
    (forall d, filter (same_date d) pairs
               = filter (same_date d)
                   (dated_pairs (split_char "010" three_tags_listing))).
Proof.
  apply (@tags_by_date_order three_tags_listing [py "A"; py "C"; py "B"]).
  reflexivity.
Defined.

(** ** The repository check and the two listings *)

Section RepositoryFacts.
Context {H : Host}.
Variable self : ReleaseNotesGenerator.

(** The three outcomes of the repository check. *)
Lemma is_git_repo_cases (s : state) :
  match subprocess_run (repo_path self) rev_parse_cmd (world s) with
  | (Ok _, w) =>
      is_git_repo self s
      = (Ok true, mkState w (trace s ++ [GitCall rev_parse_cmd]))
  | (Raise e, w) =>
      is_git_repo self s
      = (if is_CalledProcessError e then Ok false else Raise e,
         mkState w (trace s ++ [GitCall rev_parse_cmd]))
  end.
Proof.
  unfold is_git_repo, bind, ret.
  pose proof (run_git_command_cases self (map Some rev_parse_cmd) true s) as Hc.
  cbn [command_line map rev_parse_cmd] in Hc. cbn zeta in Hc.
  unfold rev_parse_cmd.
  destruct (subprocess_run (repo_path self) [py "rev-parse"; py "--git-dir"]
              (world s)) as [[out|e] w]; cbn [map]; rewrite Hc; [reflexivity|].
  rewrite andb_true_r. now destruct (is_CalledProcessError e).
Qed.

(** X11: the repository check, from what the rev-parse command does.  Any
    successful run means a repository, whatever it prints, even nothing; a
    non-zero exit status means none; any other exception of the run is not
    caught and leaves the check. *)
Theorem is_git_repo_outcome (s : state) :
  match subprocess_run (repo_path self) rev_parse_cmd (world s) with
  | (Ok _, w) =>
      is_git_repo self s
      = (Ok true, mkState w (trace s ++ [GitCall rev_parse_cmd]))
  | (Raise e, w) =>
      is_git_repo self s
      = (if is_CalledProcessError e then Ok false else Raise e,
         mkState w (trace s ++ [GitCall rev_parse_cmd]))
  end.
Proof. apply is_git_repo_cases. Qed.

Lemma is_git_repo_raise s e w :
  subprocess_run (repo_path self) rev_parse_cmd (world s) = (Raise e, w) ->
  is_git_repo self s
  = (if is_CalledProcessError e then Ok false else Raise e,
     mkState w (trace s ++ [GitCall rev_parse_cmd])).
Proof.
  intros E. pose proof (is_git_repo_cases s) as Ho. now rewrite E in Ho.
Qed.

End RepositoryFacts.

Section ListingFacts.
Context {H : Host}.
Variable self : ReleaseNotesGenerator.

(** X12: when the rev-parse command raises, both the tag listing and the
    generation of the notes end there: with "... is not a Git repository"
    for a non-zero exit status, and with the exception of the run itself
    otherwise (git missing, say); rev-parse is the one command that ran
    and no file is written. *)
Theorem repository_check_failure (start_tag end_tag : option str)
  (output_file : str) (version_title : option str)
  (s : state) (e : exn) (w : World)
  (Hrun : subprocess_run (repo_path self) rev_parse_cmd (world s)
          = (Raise e, w)) :
  get_latest_tags self s
  = (Raise (repository_failure self e),
     mkState w (trace s ++ [GitCall rev_parse_cmd]))
  /\ generate_release_notes self start_tag end_tag output_file version_title s
     = (Raise (repository_failure self e),
        mkState w (trace s ++ [GitCall rev_parse_cmd])).
Proof.
  unfold get_latest_tags, generate_release_notes, bind, repository_failure.
  rewrite (is_git_repo_raise self s Hrun).
  destruct (is_CalledProcessError e); split; reflexivity.
Qed.

Lemma command_line_Some args : command_line (map Some args) = Some args.
Proof. induction args as [|a args IH]; cbn; [reflexivity|now rewrite IH]. Qed.

(** A command that succeeds gives its stripped output. *)
Lemma run_git_command_ok args allow_failure s out w :
  subprocess_run (repo_path self) args (world s) = (Ok out, w) ->
  run_git_command self (map Some args) allow_failure s
  = (Ok (Some (strip out)), mkState w (trace s ++ [GitCall args])).
Proof.
  intros E.
  pose proof (run_git_command_cases self (map Some args) allow_failure s) as Hc.
  rewrite command_line_Some in Hc. cbn zeta in Hc. now rewrite E in Hc.
Qed.

(** A command that raises, run without [allow_failure], raises the same. *)
Lemma run_git_command_raise args s e w :
  subprocess_run (repo_path self) args (world s) = (Raise e, w) ->
  run_git_command self (map Some args) false s
  = (Raise e, mkState w (trace s ++ [GitCall args])).
Proof.
  intros E.
  pose proof (run_git_command_cases self (map Some args) false s) as Hc.
  rewrite command_line_Some in Hc. cbn zeta in Hc. rewrite E in Hc.
  now rewrite andb_false_r in Hc.
Qed.

(** The plain listing, from the state the dated listing left. *)
Lemma plain_listing_run s2 r3 w3 :
  subprocess_run (repo_path self) tag_l_cmd (world s2) = (r3, w3) ->
  try_except
    (raw_tags <- run_git_command self (map Some tag_l_cmd) false ;;
     ret (match raw_tags with
          | Some raw_tags =>
              if truthy raw_tags then split_char "010" raw_tags else []
          | None => []
          end))
    any_exception (fun _ => ret []) s2
  = (Ok (plain_listing r3), mkState w3 (trace s2 ++ [GitCall tag_l_cmd])).
Proof.
  intros E. unfold try_except, bind, ret. destruct r3 as [out|e3].
  - now rewrite (@run_git_command_ok tag_l_cmd false s2 out w3 E).
  - now rewrite (@run_git_command_raise tag_l_cmd s2 e3 w3 E).
Qed.

(** X13: the fallback of the tag listing.  In a repository whose dated
    listing cannot be used (the command raised, printed nothing, or a line
    of it raised), the tags are the lines of the plain listing, in its
    order; and there are none when that command raises or prints nothing.
    The listing itself never raises. *)
Theorem get_latest_tags_fallback_listing (s s1 : state)
  (r2 r3 : res str) (w2 w3 : World)
  (Hrepo : is_git_repo self s = (Ok true, s1))
  (Hdated : subprocess_run (repo_path self) for_each_ref_cmd (world s1)
            = (r2, w2))
  (Hfails : date_branch_fails r2)
  (Hplain : subprocess_run (repo_path self) tag_l_cmd w2 = (r3, w3)) :
  get_latest_tags self s
  = (Ok (plain_listing r3),
     mkState w3 (trace s1 ++ [GitCall for_each_ref_cmd; GitCall tag_l_cmd])).
Proof.
  set (s2 := mkState w2 (trace s1 ++ [GitCall for_each_ref_cmd])).
  assert (Hfb := @plain_listing_run s2 r3 w3 Hplain).
  cbn [trace s2] in Hfb. rewrite <- app_assoc in Hfb. cbn [app] in Hfb.
  unfold get_latest_tags. unfold bind at 1. rewrite Hrepo. cbn [negb].
  unfold bind at 1. unfold try_except at 1. unfold bind at 1.
  destruct r2 as [out|e2].
  - rewrite (@run_git_command_ok for_each_ref_cmd false s1 out w2 Hdated).
    fold s2.
    cbn in Hfails. destruct Hfails as [Hblank|[e He]].
    + rewrite Hblank. cbn [truthy]. unfold ret at 1. exact Hfb.
    + destruct (truthy (strip out)).
      * rewrite He. unfold raise at 1. cbn [any_exception].
        unfold ret at 1. exact Hfb.
      * unfold ret at 1. exact Hfb.
  - rewrite (@run_git_command_raise for_each_ref_cmd s1 e2 w2 Hdated).
    fold s2.
    cbn [any_exception]. unfold ret at 1. exact Hfb.
Qed.

End ListingFacts.

Lemma repository_check_failure_witness :
  fst (generate_release_notes (H := scripted no_repository_table) here None None
         (py "RELEASE_NOTES.md") None (fresh no_repository_table))
  = Raise (Exception_ (py "'.' is not a Git repository")).
Proof.
  rewrite (proj2 (@repository_check_failure (scripted no_repository_table) here
                    None None (py "RELEASE_NOTES.md") None
                    (fresh no_repository_table) _ tt eq_refl)).
  reflexivity.
Defined.

Lemma get_latest_tags_fallback_listing_witness :
  fst (get_latest_tags (H := scripted plain_listing_table) here
         (fresh plain_listing_table))
  = Ok [py "v0.9"; py "v1.0"].
Proof.
  rewrite (@get_latest_tags_fallback_listing (scripted plain_listing_table) here
             (fresh plain_listing_table) _ _ _ tt tt eq_refl eq_refl I eq_refl).
  reflexivity.
Defined.

(** ** The whole run *)

Lemma first_other_all_equal e tags :
  Forall (eq e) tags -> first_other tags (Some e) = None.
Proof.
  induction 1 as [|t tags <- _ IH]; [reflexivity|]. cbn [first_other opt_eqb].
  now rewrite str_eqb_refl.
Qed.

Section RunFacts.
Context {H : Host}.
Variable self : ReleaseNotesGenerator.

(** Without a start tag the ancestry correction runs no command: the
    command line cannot be built, the TypeError is swallowed, and the pair
    is unchanged. *)
Lemma order_tags_unset_start end_tag s :
  order_tags self None end_tag s = (Ok (None, end_tag), s).
Proof. reflexivity. Qed.

Lemma GitOnly_refl s : git_only_step s s.
Proof. exists []. split; [unfold extends; now rewrite app_nil_r|reflexivity]. Qed.

Lemma GitOnly_trans s1 s2 s3 :
  git_only_step s1 s2 -> git_only_step s2 s3 -> git_only_step s1 s3.
Proof.
  intros (a1 & E1 & Q1) (a2 & E2 & Q2). exists (a1 ++ a2). split.
  - unfold extends in *. now rewrite E2, E1, app_assoc.
  - rewrite forallb_app, Q1, Q2. reflexivity.
Qed.

Lemma GitOnly_ret (A : Type) (a : A) : GitOnly (ret a).
Proof. intros s r s' E. inversion E; subst. apply GitOnly_refl. Qed.

Lemma GitOnly_raise (A : Type) (e : exn) : GitOnly (raise (A := A) e).
Proof. intros s r s' E. inversion E; subst. apply GitOnly_refl. Qed.

Lemma GitOnly_bind (A B : Type) (m : M A) (f : A -> M B) :
  GitOnly m -> (forall a, GitOnly (f a)) -> GitOnly (bind m f).
Proof.
  intros Hm Hf s r s' E. unfold bind in E.
  destruct (m s) as [[a|e] s1] eqn:Em.
  - eapply GitOnly_trans; [eapply Hm; eauto|eapply Hf; eauto].
  - inversion E; subst. eapply Hm; eauto.
Qed.

Lemma GitOnly_try_except (A : Type) (m : M A) catches (h : exn -> M A) :
  GitOnly m -> (forall e, GitOnly (h e)) -> GitOnly (try_except m catches h).
Proof.
  intros Hm Hh s r s' E. unfold try_except in E.
  destruct (m s) as [[a|e] s1] eqn:Em.
  - inversion E; subst. eapply Hm; eauto.
  - destruct (catches e).
    + eapply GitOnly_trans; [eapply Hm; eauto|eapply Hh; eauto].
    + inversion E; subst. eapply Hm; eauto.
Qed.

Lemma GitOnly_lift (A : Type) (f : World -> res A * World) : GitOnly (lift f).
Proof.
  intros s r s' E. unfold lift in E. destruct (f (world s)) as [r0 w].
  inversion E; subst. exists []. split; [|reflexivity].
  unfold extends. cbn. now rewrite app_nil_r.
Qed.

Lemma GitOnly_run_git_command command allow_failure :
  GitOnly (run_git_command self command allow_failure).
Proof.
  intros s r s' E.
  pose proof (run_git_command_cases self command allow_failure s) as Hc.
  destruct (command_line command) as [args|].
  - assert (Hq : git_only_step s (mkState (world s') (trace s ++ [GitCall args]))).
    { exists [GitCall args]. split; reflexivity. }
    cbn zeta in Hc.
    destruct (subprocess_run (repo_path self) args (world s)) as [[out|e] w];
      rewrite Hc in E; inversion E; subst; exact Hq.
  - rewrite Hc in E. inversion E; subst. apply GitOnly_refl.
Qed.

Lemma GitOnly_is_git_repo : GitOnly (is_git_repo self).
Proof.
  unfold is_git_repo. apply GitOnly_bind.
  - apply GitOnly_run_git_command.
  - intros r. apply GitOnly_ret.
Qed.

Lemma GitOnly_get_latest_tags : GitOnly (get_latest_tags self).
Proof.
  unfold get_latest_tags. apply GitOnly_bind; [apply GitOnly_is_git_repo|].
  intros ok. destruct ok; cbn [negb]; [|apply GitOnly_raise].
  apply GitOnly_bind.
  - apply GitOnly_try_except; [|intros; apply GitOnly_ret].
    apply GitOnly_bind; [apply GitOnly_run_git_command|].
    intros [raw|]; [|apply GitOnly_ret].
    destruct (truthy raw); [|apply GitOnly_ret].
    destruct (tags_by_date raw); [apply GitOnly_ret|apply GitOnly_raise].
  - intros [tags|]; [apply GitOnly_ret|].
    apply GitOnly_try_except; [|intros; apply GitOnly_ret].
    apply GitOnly_bind; [|intros; apply GitOnly_ret].
    apply GitOnly_run_git_command.
Qed.

Lemma GitOnly_order_tags start_tag end_tag :
  GitOnly (order_tags self start_tag end_tag).
Proof.
  unfold order_tags. apply GitOnly_try_except; [|intros; apply GitOnly_ret].
  apply GitOnly_bind; [apply GitOnly_run_git_command|].
  intros result. destruct (truthy_opt result); [|apply GitOnly_ret].
  apply GitOnly_try_except; [|intros; apply GitOnly_ret].
  apply GitOnly_bind; [apply GitOnly_run_git_command|].
  intros; apply GitOnly_ret.
Qed.

Lemma GitOnly_get_commits_between_tags start_tag end_tag :
  GitOnly (get_commits_between_tags self start_tag end_tag).
Proof.
  unfold get_commits_between_tags.
  apply GitOnly_bind; [apply GitOnly_run_git_command|].
  intros; apply GitOnly_ret.
Qed.

Ltac stop_early G E :=
  let calls := fresh "calls" in
  let Hx := fresh "Hx" in
  let Hg := fresh "Hg" in
  inversion E; subst; destruct G as (calls & Hx & Hg);
  exists calls; split; [exact Hg|left; split; [exact Hx|eauto]].

(** X15: the file is written last and at most once.  Whatever the run of
    generate_release_notes ends with, the trace has gained runs of git
    followed by at most one write, of the output file; without the write
    the run raised; with it, the text written is the text returned, unless
    the write itself raised. *)
Theorem file_written_last (start_tag end_tag : option str)
  (output_file : str) (version_title : option str)
  (s s' : state) (r : res str)
  (Hrun : generate_release_notes self start_tag end_tag output_file
            version_title s = (r, s')) :
  exists calls,
    forallb is_git_call calls = true /\
    ((trace s' = trace s ++ calls /\ exists e, r = Raise e)
     \/
     (exists markdown_content,
        trace s' = trace s ++ calls ++ [FileWrite output_file markdown_content]
        /\ (r = Ok markdown_content \/ exists e, r = Raise e))).
Proof.
  unfold generate_release_notes, bind in Hrun.
  destruct (is_git_repo self s) as [[ok|e] s1] eqn:E1;
    (assert (G1 : git_only_step s s1)
      by (eapply GitOnly_is_git_repo; exact E1));
    [|stop_early G1 Hrun].
  destruct ok; cbn [negb] in Hrun; [|stop_early G1 Hrun].
  destruct (get_latest_tags self s1) as [[tags|e] s2] eqn:E2;
    (assert (G2 : git_only_step s s2)
      by (apply (GitOnly_trans G1); eapply GitOnly_get_latest_tags; exact E2));
    [|stop_early G2 Hrun].
  destruct (negb (nonempty tags)); [stop_early G2 Hrun|].
  destruct (List.length tags <? 2); [stop_early G2 Hrun|].
  destruct (select_tags tags start_tag end_tag) as [[st en]|e];
    [|stop_early G2 Hrun].
  destruct (order_tags self st en s2) as [[[st' en']|e] s3] eqn:E3;
    (assert (G3 : git_only_step s s3)
      by (apply (GitOnly_trans G2); eapply GitOnly_order_tags; exact E3));
    [|stop_early G3 Hrun].
  destruct (get_commits_between_tags self st' en' s3) as [[commits|e] s4] eqn:E4;
    (assert (G4 : git_only_step s s4)
      by (apply (GitOnly_trans G3);
          eapply GitOnly_get_commits_between_tags; exact E4));
    [|stop_early G4 Hrun].
  destruct (lift (generate_markdown st' en' commits version_title) s4)
    as [[md|e] s5] eqn:E5;
    (assert (G5 : git_only_step s s5)
      by (apply (GitOnly_trans G4); eapply GitOnly_lift; exact E5));
    [|stop_early G5 Hrun].
  destruct G5 as (calls & Hx & Hg). exists calls. split; [exact Hg|].
  right. exists md. unfold log, lift, ret in Hrun. cbn [world trace] in Hrun.
  unfold extends in Hx.
  destruct (write_file output_file md (world s5)) as [[[]|e] w];
    inversion Hrun; subst; cbn [trace]; rewrite Hx, <- app_assoc;
    split; eauto.
Qed.

End RunFacts.

Section UnsetStart.
Context {H : Host}.
Variable self : ReleaseNotesGenerator.

(** X14: a start tag that stays unset.  When the caller gives an end tag
    and no start tag, and every tag after the first of the list is that end
    tag (two tags and the older one as end tag, say), no start tag is
    found; the ancestry correction then runs no command, and the next
    command after the tag listing is the log over the range made of the
    text "None", two dots and the end tag. *)
Theorem unset_start_range (e output_file : str) (version_title : option str)
  (s s1 s2 : state) (tags : list str)
  (Hrepo : is_git_repo self s = (Ok true, s1))
  (Htags : get_latest_tags self s1 = (Ok tags, s2))
  (Hlen : 2 <= List.length tags)
  (He : truthy e = true)
  (Hall : Forall (eq e) (tl tags)) :
  exists r s' rest,
    generate_release_notes self None (Some e) output_file version_title s
    = (r, s')
    /\ trace s' = trace s2 ++ GitCall (log_args None (Some e)) :: rest
    /\ log_args None (Some e)
       = [py "log"; py "--oneline"; py "--pretty=format:%H|%an|%ad|%s";
          py "None.." ++ e].
Proof.
  unfold generate_release_notes, bind. rewrite Hrepo. cbn [negb].
  rewrite Htags.
  destruct tags as [|t0 [|t1 tags]]; cbn [List.length] in Hlen; try lia.
  cbn [nonempty negb List.length Nat.ltb Nat.leb].
  unfold select_tags. cbn [truthy_opt tl]. rewrite He. cbn [negb].
  cbn [tl] in Hall. rewrite (first_other_all_equal Hall).
  rewrite order_tags_unset_start.
  unfold get_commits_between_tags, bind, ret.
  destruct (subprocess_run (repo_path self) (log_args None (Some e)) (world s2))
    as [[out|e'] w] eqn:Erun.
  - rewrite (@run_git_command_ok H self (log_args None (Some e)) false s2 out w
               Erun).
    unfold lift at 1. cbn [world trace].
    destruct (generate_markdown None (Some e) _ version_title w) as [[md|e'] w'].
    + unfold log, lift, ret. cbn [world trace].
      destruct (write_file output_file md w') as [[[]|e'] w''];
        eexists _, _, [FileWrite output_file md];
        (split; [reflexivity|]);
        (split; [cbn [trace]; now rewrite <- app_assoc|reflexivity]).
    + eexists _, _, []. split; [reflexivity|]. split; reflexivity.
  - rewrite (@run_git_command_raise H self (log_args None (Some e)) s2 e' w
               Erun).
    eexists _, _, []. split; [reflexivity|]. split; reflexivity.
Qed.

End UnsetStart.

Lemma unset_start_range_witness :
  exists r s' rest,
    generate_release_notes (H := scripted two_tags_table) here None
      (Some (py "v1")) (py "RELEASE_NOTES.md") None (fresh two_tags_table)
    = (r, s')
    /\ trace s'
       = trace (mkState (H := scripted two_tags_table) tt
                  [GitCall rev_parse_cmd; GitCall rev_parse_cmd;
                   GitCall for_each_ref_cmd])
         ++ GitCall (log_args None (Some (py "v1"))) :: rest
    /\ log_args None (Some (py "v1"))
       = [py "log"; py "--oneline"; py "--pretty=format:%H|%an|%ad|%s";
          py "None.." ++ py "v1"].
Proof.
  apply (@unset_start_range (scripted two_tags_table) here (py "v1")
           (py "RELEASE_NOTES.md") None (fresh two_tags_table)
           (mkState (H := scripted two_tags_table) tt [GitCall rev_parse_cmd])
           _ [py "v2"; py "v1"]).
  - reflexivity.
  - reflexivity.
  - cbn. lia.
  - reflexivity.
  - repeat constructor.
Defined.

Lemma file_written_last_witness :
  let run := generate_release_notes
               (H := rendering full_run_table (fun t => t) (py "2024-05-06"))
               here None None (py "NOTES.md") None
               (mkState (H := rendering full_run_table (fun t => t)
                                (py "2024-05-06")) tt []) in
  exists calls,
    forallb is_git_call calls = true /\
    ((trace (snd run) = [] ++ calls /\ exists e, fst run = Raise e)
     \/
     (exists markdown_content,
        trace (snd run) = [] ++ calls ++ [FileWrite (py "NOTES.md") markdown_content]
        /\ (fst run = Ok markdown_content \/ exists e, fst run = Raise e))).
Proof.
  intros run.
  apply (@file_written_last
           (rendering full_run_table (fun t => t) (py "2024-05-06"))
           here None None (py "NOTES.md") None
           (mkState (H := rendering full_run_table (fun t => t)
                            (py "2024-05-06")) tt [])
           (snd run) (fst run)).
  reflexivity.
Defined.

(** ** The document *)

Lemma get_of_key (V : Type) k (d : Dict.dict V) :
  In k (Dict.keys d) -> exists v, Dict.get k d = Some v.
Proof.
  induction d as [|[k' v'] d IH]; intros Hin; [contradiction|].
  cbn [Dict.get]. destruct (PyStr.eqb k' k) eqn:E; [eauto|].
  destruct Hin as [Hk|Hin]; [|auto]. cbn in Hk. subst k'.
  now rewrite str_eqb_refl in E.
Qed.

(** The section of a key of the table does not use the default title. *)
Lemma section_of_entry title k t commit_list :
  In (k, t) COMMIT_TYPES ->
  Render.section title (k, commit_list) = Render.titled t commit_list.
Proof.
  intros Hin. unfold Render.section, Render.get_default.
  now rewrite (@get_In str k t COMMIT_TYPES keys_COMMIT_TYPES_NoDup Hin).
Qed.

(** The sections of the grouping are the sections of the entries of the
    table that have a commit. *)
Lemma sections_of_table title commits : forall T,
  (forall kt, In kt T -> In kt COMMIT_TYPES) ->
  map (Render.section title)
      (filter (fun kv : str * list GitCommit => nonempty (snd kv))
         (map (fun k => (k, filed_under k commits)) (map fst T)))
  = map (table_section commits)
      (filter (fun kt => has_commit (fst kt) commits) T).
Proof.
  induction T as [|[k t] T IH]; intros Hsub; [reflexivity|].
  cbn [map filter fst snd]. unfold has_commit at 1.
  rewrite <- nonempty_filter_existsb. fold (filed_under k commits).
  assert (IH' := IH (fun kt Hkt => Hsub kt (or_intror Hkt))).
  destruct (nonempty (filed_under k commits)); [|exact IH'].
  cbn [map]. rewrite IH'. f_equal.
  apply section_of_entry. apply Hsub. now left.
Qed.

Lemma generate_markdown_eq title today start_tag end_tag commits version_title :
  nonempty commits = true ->
  Render.generate_markdown title today start_tag end_tag commits version_title
  = Ok (Render.header today start_tag end_tag version_title
        ++ Render.summary commits
        ++ List.concat
             (map (table_section commits)
                (filter (fun kt => has_commit (fst kt) commits) COMMIT_TYPES))
        ++ Render.all_commits commits).
Proof.
  intros Hne. unfold Render.generate_markdown. rewrite Hne. cbn [negb].
  rewrite categorize_commits_eq. unfold all_categories, Dict.keys.
  now rewrite sections_of_table.
Qed.

(** X16: the renderer never raises, and the title-cased default of the
    section titles is never used: whatever [str.title] would give, the
    document is the same, every section title coming from the table. *)
Theorem generate_markdown_total (title title' : str -> str) (today : str)
  (start_tag end_tag : option str) (commits : list GitCommit)
  (version_title : option str) :
  exists markdown,
    Render.generate_markdown title today start_tag end_tag commits
      version_title = Ok markdown
    /\ Render.generate_markdown title' today start_tag end_tag commits
         version_title = Ok markdown.
Proof.
  destruct (nonempty commits) eqn:Hne.
  - rewrite !generate_markdown_eq by exact Hne. eauto.
  - unfold Render.generate_markdown. rewrite Hne. cbn [negb]. eauto.
Qed.

(** X17: the layout of the document for a list of commits that is not
    empty: the header, the summary, then one section for each entry of the
    table under whose key some commit is filed, in the order of the table,
    titled by the entry and listing those commits in the order of the
    input, then the section of all commits.  The synonyms of the table
    ("feat" and "feature", say) give two sections of the same title. *)
Theorem generate_markdown_layout (title : str -> str) (today : str)
  (start_tag end_tag : option str) (commits : list GitCommit)
  (version_title : option str)
  (Hne : commits <> []) :
  Render.generate_markdown title today start_tag end_tag commits version_title
  = Ok (Render.header today start_tag end_tag version_title
        ++ Render.summary commits
        ++ List.concat
             (map (table_section commits)
                (filter (fun kt => has_commit (fst kt) commits) COMMIT_TYPES))
        ++ Render.all_commits commits).
Proof.
  apply generate_markdown_eq. destruct commits; [congruence|reflexivity].
Qed.

Lemma generate_markdown_layout_witness :
  let c1 := Commit.new (py "1") (py "feature: b") (py "B") (py "d") in
  let c2 := Commit.new (py "2") (py "feat: a") (py "A") (py "d") in
  Render.generate_markdown (fun t => t) (py "2024-05-06")
    (Some (py "v1")) (Some (py "v2")) [c1; c2] None
  = Ok (Render.header (py "2024-05-06") (Some (py "v1")) (Some (py "v2")) None
        ++ Render.summary [c1; c2]
        ++ (Render.titled (py "Features") [c2]
            ++ Render.titled (py "Features") [c1])
        ++ Render.all_commits [c1; c2]).
Proof.
  intros c1 c2.
  rewrite (@generate_markdown_layout (fun t => t) (py "2024-05-06")
             (Some (py "v1")) (Some (py "v2")) [c1; c2] None).
  - reflexivity.
  - discriminate.
Defined.

(** The whole run on a small repository, with the renderer of the
    program. *)
Example generate_release_notes_document :
  fst (generate_release_notes
         (H := rendering full_run_table (fun t => t) (py "2024-05-06"))
         here None None (py "NOTES.md") None
         (mkState (H := rendering full_run_table (fun t => t)
                          (py "2024-05-06")) tt []))
  = Ok (py "# Release v2" ++ nl ++ nl
        ++ py "**Release Date:** 2024-05-06" ++ nl ++ nl
        ++ py "**Tags:** `v1` ... `v2`" ++ nl ++ nl
        ++ py "**Summary:** 2 commits by 1 authors" ++ nl ++ nl
        ++ py "## Features" ++ nl ++ nl
        ++ py "- add login **(auth)** ([`fedcba98`](https://github.com/unknown/unknown/commit/fedcba98))" ++ nl
        ++ nl
        ++ py "## Bug Fixes" ++ nl ++ nl
        ++ py "- crash on start ([`01234567`](https://github.com/unknown/unknown/commit/01234567))" ++ nl
        ++ nl
        ++ py "## All Commits" ++ nl ++ nl
        ++ py "- [`Fix: crash on start`](01234567) - Ann" ++ nl
        ++ py "- [`feat(auth): add login`](fedcba98) - Ann" ++ nl).
Proof. reflexivity. Qed.

Example generate_markdown_no_commits :
  Render.generate_markdown (fun t => t) (py "2024-05-06")
    (Some (py "v1.0.0")) (Some (py "v1.1.0")) [] None
  = Ok (py "# Release v1.1.0" ++ nl ++ nl
        ++ py "**Release Date:** 2024-05-06" ++ nl ++ nl
        ++ py "**Tags:** `v1.0.0` ... `v1.1.0`" ++ nl ++ nl
        ++ py "No significant changes." ++ nl ++ nl).
Proof. reflexivity. Qed.

(** ** The text a command returns *)

Lemma lstrip_with_stops p s : stops p (lstrip_with p s).
Proof.
  induction s as [|a s IH]; [exact I|]. cbn [lstrip_with].
  destruct (p a) eqn:Ha; [exact IH|exact Ha].
Qed.

Lemma lstrip_with_split p s :
  exists w, s = w ++ lstrip_with p s /\ forallb p w = true.
Proof.
  induction s as [|a s (w & E & Hw)]; [now exists []|]. cbn [lstrip_with].
  destruct (p a) eqn:Ha.
  - exists (a :: w). split; [cbn; now rewrite <- E|cbn; now rewrite Ha].
  - now exists [].
Qed.

Lemma rstrip_with_split p s :
  exists t, s = rstrip_with p s ++ t /\ forallb p t = true.
Proof.
  unfold rstrip_with. destruct (lstrip_with_split p (rev s)) as (w & E & Hw).
  exists (rev w). split.
  - rewrite <- rev_app_distr, <- E. now rewrite rev_involutive.
  - rewrite forallb_forall in *. intros x Hx. apply Hw. now apply in_rev.
Qed.

Lemma rstrip_with_stops p s : stops p s -> stops p (rstrip_with p s).
Proof.
  intros Hs. destruct (rstrip_with_split p s) as (t & E & _).
  destruct (rstrip_with p s) as [|a r]; [exact I|].
  rewrite E in Hs. exact Hs.
Qed.

Lemma strip_with_edges p s :
  stops p (strip_with p s) /\ stops p (rev (strip_with p s)).
Proof.
  unfold strip_with. split.
  - apply rstrip_with_stops, lstrip_with_stops.
  - unfold rstrip_with. rewrite rev_involutive. apply lstrip_with_stops.
Qed.

Section OutputFacts.
Context {H : Host}.
Variable self : ReleaseNotesGenerator.

(** X18: the text run_git_command returns is stripped: it neither begins
    nor ends with whitespace, so the first and the last line of a listing
    or of a log have lost the whitespace at their outer ends. *)
Theorem run_git_command_stripped (command : list (option str))
  (allow_failure : bool) (s s' : state) (output : str)
  (Hrun : run_git_command self command allow_failure s = (Ok (Some output), s')) :
  stops is_space output /\ stops is_space (rev output).
Proof.
  pose proof (run_git_command_cases self command allow_failure s) as Hc.
  destruct (command_line command) as [args|].
  - cbn zeta in Hc.
    destruct (subprocess_run (repo_path self) args (world s)) as [[out|e] w];
      rewrite Hc in Hrun.
    + inversion Hrun; subst. apply strip_with_edges.
    + destruct (is_CalledProcessError e && allow_failure); discriminate.
  - rewrite Hc in Hrun. discriminate.
Qed.

End OutputFacts.

Lemma run_git_command_stripped_witness :
  stops is_space (py ".git") /\ stops is_space (rev (py ".git")).
Proof.
  apply (@run_git_command_stripped (scripted full_run_table) here
           (map Some rev_parse_cmd) true (fresh full_run_table)
           (mkState (H := scripted full_run_table) tt [GitCall rev_parse_cmd])
           (py ".git")).
  reflexivity.
Defined.

Lemma tag_of_line_cases_witness :
  tag_of_line (py "'blobtag|'") = Raise IndexError
  /\ tags_by_date (strip dateless_tag_listing) = Raise IndexError.
Proof.
  split.
  - reflexivity.
  - destruct (tags_by_date (strip dateless_tag_listing)) as [tags|e] eqn:E.
    + discriminate E.
    + f_equal.
      exact (proj2 (tag_of_line_cases (py "'blobtag|'")
                      (strip dateless_tag_listing)) e E).
Defined.
